(** * py-libp2p: the mplex stream multiplexer and the raw connection

    A shallow embedding of
    - [libp2p/stream_muxer/mplex/mplex.py] (class [Mplex]) and
    - [libp2p/network/connection/raw_connection.py] (class [RawConnection]),
    followed by the properties of the specification that concern them.

    Python integers are unbounded; every integer the code handles here
    (stream ids, flags, headers, lengths) is non-negative, so they are
    modelled as [N] with [N.shiftl], [N.shiftr], [N.lor] and [N.land].
    [bytes] values are [list byte]. *)

From Stdlib Require Import NArith ZArith Strings.Byte Lia.
From Equations Require Import Equations.
From stdpp Require Import gmap list.

Local Open Scope N_scope.

(** ** Coroutine outcomes *)

(** The exceptions that the two classes raise or catch. *)
Inductive exn : Type :=
| StreamNotFound
| NotImplementedError
| TimeoutError
| ConnectionResetError
| RawConnError
| KeyError.

#[global] Instance exn_eq_dec : EqDecision exn.
Proof. solve_decision. Defined.

(** What a call does: it returns a value, it raises, or it stays parked
    at an [await] (an empty [asyncio.Queue], a held lock) that the call
    itself cannot complete. *)
Inductive outcome (A : Type) : Type :=
| Ret (a : A)
| Raise (e : exn)
| Suspended.
Arguments Ret {A} a.
Arguments Raise {A} e.
Arguments Suspended {A}.

(** A method is a function from the object's state to an outcome and the
    state it leaves behind. *)
Definition M (S A : Type) : Type := S → outcome A * S.

Definition ret {S A : Type} (a : A) : M S A := λ s, (Ret a, s).

Definition raise {S A : Type} (e : exn) : M S A := λ s, (Raise e, s).

Definition suspend {S A : Type} : M S A := λ s, (Suspended, s).

Definition bind {S A B : Type} (c : M S A) (k : A → M S B) : M S B :=
  λ s, match c s with
       | (Ret a, s') => k a s'
       | (Raise e, s') => (Raise e, s')
       | (Suspended, s') => (Suspended, s')
       end.

(** [try: c except e: h] *)
Definition try_except {S A : Type} (c : M S A) (e : exn) (h : M S A) : M S A :=
  λ s, match c s with
       | (Raise e', s') => if decide (e' = e) then h s' else (Raise e', s')
       | r => r
       end.

Definition get {S : Type} : M S S := λ s, (Ret s, s).

Definition modify {S : Type} (f : S → S) : M S unit := λ s, (Ret tt, f s).

(** A property of the state that a call keeps, whatever its outcome. *)
Definition preserves {S A : Type} (P : S → Prop) (c : M S A) : Prop :=
  ∀ s, P s → P (snd (c s)).

Declare Scope py_scope.
Delimit Scope py_scope with py.
Notation "x <- c ;; k" := (bind c (λ x, k))
  (at level 100, c at next level, right associativity) : py_scope.
Notation "c ;;; k" := (bind c (λ _, k))
  (at level 100, right associativity) : py_scope.
Local Open Scope py_scope.


(** ** Unsigned varints *)

(** [bytes((n,))]: the one-byte string of value [n]; the code only builds
    it from values below 256. *)
Definition byte_of_N (n : N) : byte :=
  match Byte.of_N n with
  | Some b => b
  | None => x00
  end.

(** Modelled from the spec: [utils.encode_uvarint] is imported by
    [mplex.py] and its file is not part of the sources at hand.  The spec
    calls it a variable-length integer encoding that keeps small values
    short, and fixes it on examples (40 is [0x28], 18 is [0x12], 5 is
    [0x05], 0 is [0x00]): the unsigned varint of the multiformats family,
    seven payload bits per byte, least significant group first, the high
    bit set on every byte but the last. *)
Equations? encode_uvarint (number : N) : list byte
  by wf (N.to_nat (N.log2 number)) lt :=
  encode_uvarint number with N.eq_dec (N.shiftr number 7) 0 => {
    | left _ := [byte_of_N (N.land number 0x7F)];
    | right _ := byte_of_N (N.lor (N.land number 0x7F) 0x80)
                 :: encode_uvarint (N.shiftr number 7) }.
Proof.
  rewrite N.log2_shiftr.
  assert (7 <= N.log2 number); [|lia].
  destruct (N.le_gt_cases 7 (N.log2 number)) as [|Hlt]; [done|].
  exfalso. apply n, N.shiftr_eq_0.
  destruct (N.eq_dec number 0) as [->|]; [reflexivity|lia].
Qed.

(** The receive buffer of an [asyncio.StreamReader] on a connection that
    is up: the bytes that have arrived and were not read yet.  Nothing
    more arrives while a read waits, so a read that needs a byte from an
    empty buffer runs into the [wait_for] timeout. *)
Abbreviation StreamReader := (list byte).

(** [asyncio.wait_for(reader.read(n), timeout)] for [n >= 0]: [read(0)]
    returns at once; otherwise [read] waits for the buffer to be non-empty
    and returns at most [n] bytes of it. *)
Definition wait_for_read (n : N) : M StreamReader (list byte) :=
  λ buf,
    if decide (n = 0) then (Ret [], buf)
    else match buf with
         | [] => (Raise TimeoutError, buf)
         | _ :: _ => (Ret (take (N.to_nat n) buf), drop (N.to_nat n) buf)
         end.

(** Modelled from the spec: [utils.decode_uvarint_from_stream] is imported
    by [mplex.py] and its file is not part of the sources at hand.  It
    reads the varint above one byte at a time, each read under the bounded
    wait; when the bound elapses the timeout propagates to the caller (the
    bytes read so far are gone from the reader). *)
Fixpoint decode_uvarint_loop (shift result : N) (buf : StreamReader)
  : outcome N * StreamReader :=
  match buf with
  | [] => (Raise TimeoutError, [])
  | byte :: buf' =>
      let i := Byte.to_N byte in
      let result := N.lor result (N.shiftl (N.land i 0x7F) shift) in
      if decide (N.land i 0x80 = 0) then (Ret result, buf')
      else decode_uvarint_loop (shift + 7) result buf'
  end.

Definition decode_uvarint_from_stream : M StreamReader N :=
  decode_uvarint_loop 0 0.

(** ** [raw_connection.py] *)

Module RawConnection.

(** The [asyncio.StreamReader] and [asyncio.StreamWriter] under the
    connection, as the interface [RawConnection] calls. *)
Class Transport (T : Type) : Type := {
  writer_write : list byte → M T unit;
  writer_drain : M T unit;
  writer_close : M T unit;
  writer_wait_closed : M T unit;
  reader_read : Z → M T (list byte) }.

Record t (T : Type) : Type := mk {
  stream : T;            (* reader and writer *)
  initiator : bool;
  drain_lock : bool }.   (* [_drain_lock] is held *)
Arguments mk {T} _ _ _.
Arguments stream {T} _.
Arguments initiator {T} _.
Arguments drain_lock {T} _.

Definition set_stream {T} (s : T) (self : t T) : t T :=
  mk s (initiator self) (drain_lock self).

Definition set_drain_lock {T} (b : bool) (self : t T) : t T :=
  mk (stream self) (initiator self) b.

(** A call on [self.reader] or [self.writer]. *)
Definition on_stream {T A} (c : M T A) : M (t T) A :=
  λ self, let (r, s) := c (stream self) in (r, set_stream s self).

(** [async with self._drain_lock: body]: waits while the lock is held,
    and releases it when the body returns or raises. *)
Definition with_drain_lock {T A} (body : M (t T) A) : M (t T) A :=
  λ self,
    if drain_lock self then (Suspended, self)
    else match body (set_drain_lock true self) with
         | (Suspended, self') => (Suspended, self')
         | (r, self') => (r, set_drain_lock false self')
         end.

Definition write {T} `{Transport T} (data : list byte) : M (t T) unit :=
  try_except (on_stream (writer_write data))
    ConnectionResetError (raise RawConnError) ;;;
  with_drain_lock
    (try_except (on_stream writer_drain)
       ConnectionResetError (raise RawConnError)).

Definition read {T} `{Transport T} (n : Z) : M (t T) (list byte) :=
  try_except (on_stream (reader_read n))
    ConnectionResetError (raise RawConnError).

Definition close {T} `{Transport T} : M (t T) unit :=
  on_stream writer_close ;;; on_stream writer_wait_closed.

(** A transport to run the connection on: an in-memory pipe that can be
    told to fail with a connection reset at one of its calls.  Its reader
    is that of a connection that is up: [read(0)] returns at once,
    [read(n)] for [n > 0] waits for a byte and returns at most [n], and
    [read(-1)] waits for an end of stream that does not come. *)
Inductive fault : Type := NoFault | ResetOnWrite | ResetOnDrain | ResetOnRead.

Record pipe : Type := mk_pipe {
  inbox : list byte;
  outbox : list byte;
  failing : fault;
  closed : bool }.

#[global] Instance fault_eq_dec : EqDecision fault.
Proof. solve_decision. Defined.

#[global] Instance pipe_transport : Transport pipe := {|
  writer_write data := λ p,
    if decide (failing p = ResetOnWrite) then (Raise ConnectionResetError, p)
    else (Ret tt, mk_pipe (inbox p) (outbox p ++ data) (failing p) (closed p));
  writer_drain := λ p,
    if decide (failing p = ResetOnDrain) then (Raise ConnectionResetError, p)
    else (Ret tt, p);
  writer_close := λ p,
    (Ret tt, mk_pipe (inbox p) (outbox p) (failing p) true);
  writer_wait_closed := λ p, (Ret tt, p);
  reader_read n := λ p,
    if decide (failing p = ResetOnRead) then (Raise ConnectionResetError, p)
    else
      if decide (n = 0)%Z then (Ret [], p)
      else if decide (n < 0)%Z then (Suspended, p)
      else match inbox p with
           | [] => (Suspended, p)
           | _ :: _ =>
               (Ret (take (Z.to_nat n) (inbox p)),
                mk_pipe (drop (Z.to_nat n) (inbox p)) (outbox p) (failing p)
                  (closed p))
           end |}.

(** [__init__]: the lock is new, nobody holds it. *)
Definition new {T} (reader_writer : T) (initiator : bool) : t T :=
  mk reader_writer initiator false.

(** A transport every call of which raises the same exception. *)
Inductive broken : Type := Broken (e : exn).

#[global] Instance broken_transport : Transport broken := {|
  writer_write _ := λ b, let 'Broken e := b in (Raise e, b);
  writer_drain := λ b, let 'Broken e := b in (Raise e, b);
  writer_close := λ b, let 'Broken e := b in (Raise e, b);
  writer_wait_closed := λ b, let 'Broken e := b in (Raise e, b);
  reader_read _ := λ b, let 'Broken e := b in (Raise e, b) |}.

(** A transport whose peer does not read: the writer takes the data and
    [drain] waits; nothing arrives either. *)
Inductive congested : Type := Congested (buffered : list byte).

#[global] Instance congested_transport : Transport congested := {|
  writer_write data := λ c,
    let 'Congested buffered := c in (Ret tt, Congested (buffered ++ data));
  writer_drain := λ c, (Suspended, c);
  writer_close := λ c, (Ret tt, c);
  writer_wait_closed := λ c, (Ret tt, c);
  reader_read n := λ c, if decide (n = 0)%Z then (Ret [], c) else (Suspended, c) |}.

End RawConnection.

(** ** [mplex.py] *)

Module Mplex.

(** Modelled from the spec: [constants.HeaderTags] is imported by
    [mplex.py] and its file is not part of the sources at hand.  A flag
    takes three bits and [NewStream] has value 0; the methods below take
    [flag.value]. *)
Definition NewStream : N := 0.

(** [MplexStream(stream_id, initiator, mplex_conn)]: the handle of one
    stream.  The third argument is the connection itself, the state the
    methods below run on. *)
Record MplexStream : Type := mkStream {
  stream_id : N;
  initiator : bool }.

(** The object [self]. *)
Record t : Type := mk {
  (* [self.conn]: the reader's buffer, all bytes handed to the writer,
     whether [close] was called, and the ids that successive calls of
     [next_stream_id] return with the number of calls so far *)
  conn_reader : StreamReader;
  conn_writer : list byte;
  conn_closed : bool;
  conn_ids : nat → N;
  conn_allocated : nat;
  (* [self.buffers]: an [asyncio.Queue] is the list of its items, oldest
     first *)
  buffers : gmap N (list (list byte));
  (* [self.stream_queue] *)
  stream_queue : list N;
  (* the tasks made by [ensure_future(generic_protocol_handler(stream))],
     one entry per invocation, oldest first *)
  handler_tasks : list MplexStream }.

Definition set_conn_reader (r : StreamReader) (self : t) : t :=
  mk r (conn_writer self) (conn_closed self) (conn_ids self)
     (conn_allocated self) (buffers self) (stream_queue self)
     (handler_tasks self).

Definition set_conn_writer (w : list byte) (self : t) : t :=
  mk (conn_reader self) w (conn_closed self) (conn_ids self)
     (conn_allocated self) (buffers self) (stream_queue self)
     (handler_tasks self).

Definition set_conn_closed (b : bool) (self : t) : t :=
  mk (conn_reader self) (conn_writer self) b (conn_ids self)
     (conn_allocated self) (buffers self) (stream_queue self)
     (handler_tasks self).

Definition set_conn_allocated (k : nat) (self : t) : t :=
  mk (conn_reader self) (conn_writer self) (conn_closed self) (conn_ids self)
     k (buffers self) (stream_queue self) (handler_tasks self).

Definition set_buffers (b : gmap N (list (list byte))) (self : t) : t :=
  mk (conn_reader self) (conn_writer self) (conn_closed self) (conn_ids self)
     (conn_allocated self) b (stream_queue self) (handler_tasks self).

Definition set_stream_queue (q : list N) (self : t) : t :=
  mk (conn_reader self) (conn_writer self) (conn_closed self) (conn_ids self)
     (conn_allocated self) (buffers self) q (handler_tasks self).

Definition set_handler_tasks (h : list MplexStream) (self : t) : t :=
  mk (conn_reader self) (conn_writer self) (conn_closed self) (conn_ids self)
     (conn_allocated self) (buffers self) (stream_queue self) h.

(** [__init__] on a connection whose reader holds [received]. *)
Definition init (ids : nat → N) (received : StreamReader) : t :=
  mk received [] false ids 0 ∅ [] [].

(** A connection to run examples on: its ids count up from 0. *)
Definition fresh (received : StreamReader) : t := init N.of_nat received.

(** A call on [self.conn.reader]. *)
Definition on_reader {A} (c : M StreamReader A) : M t A :=
  λ self, let (r, buf) := c (conn_reader self) in (r, set_conn_reader buf self).

(** [self.conn.next_stream_id()] *)
Definition next_stream_id : M t N :=
  λ self, (Ret (conn_ids self (conn_allocated self)),
           set_conn_allocated (S (conn_allocated self)) self).

Definition close : M t unit := modify (set_conn_closed true).

Definition is_closed : M t bool := raise NotImplementedError.

Definition read_buffer (stream_id : N) : M t (list byte) :=
  self <- get ;;
  match buffers self !! stream_id with
  | None => raise StreamNotFound
  | Some [] => suspend
  | Some (chunk :: rest) =>
      modify (set_buffers (<[stream_id := rest]> (buffers self))) ;;;
      ret chunk
  end.

Definition read_buffer_nonblocking (stream_id : N) : M t (option (list byte)) :=
  self <- get ;;
  match buffers self !! stream_id with
  | None => raise StreamNotFound
  | Some [] => ret None
  | Some (chunk :: rest) =>
      modify (set_buffers (<[stream_id := rest]> (buffers self))) ;;;
      ret (Some chunk)
  end.

Definition write_to_stream (_bytes : list byte) : M t N :=
  modify (λ self, set_conn_writer (conn_writer self ++ _bytes) self) ;;;
  ret (N.of_nat (length _bytes)).

(** The value of [_bytes] in [send_message]. *)
Definition frame_bytes (flag : N) (data : option (list byte)) (stream_id : N)
  : list byte :=
  let header := N.lor (N.shiftl stream_id 3) flag in
  let header := encode_uvarint header in
  match data with
  | None =>
      let data_length := encode_uvarint 0 in
      header ++ data_length
  | Some data =>
      let data_length := encode_uvarint (N.of_nat (length data)) in
      header ++ data_length ++ data
  end.

Definition send_message (flag : N) (data : option (list byte)) (stream_id : N)
  : M t N :=
  write_to_stream (frame_bytes flag data stream_id).

Definition open_stream : M t MplexStream :=
  stream_id <- next_stream_id ;;
  let stream := mkStream stream_id true in
  modify (λ self, set_buffers (<[stream_id := []]> (buffers self)) self) ;;;
  send_message NewStream None stream_id ;;;
  ret stream.

Definition accept_stream : M t unit :=
  self <- get ;;
  match stream_queue self with
  | [] => suspend
  | stream_id :: rest =>
      modify (set_stream_queue rest) ;;;
      let stream := mkStream stream_id false in
      modify (λ self, set_handler_tasks (handler_tasks self ++ [stream]) self)
  end.

(** [None] is the triple [(None, None, None)]. *)
Definition read_message : M t (option (N * N * list byte)) :=
  try_except
    (header <- on_reader decode_uvarint_from_stream ;;
     length <- on_reader decode_uvarint_from_stream ;;
     message <- on_reader (wait_for_read length) ;;
     let flag := N.land header 0x07 in
     let stream_id := N.shiftr header 3 in
     ret (Some (stream_id, flag, message)))
    TimeoutError (ret None).

(** The body of [if stream_id is not None and ...] in [handle_incoming]. *)
Definition dispatch (stream_id flag : N) (message : list byte) : M t unit :=
  (self <- get ;;
   match buffers self !! stream_id with
   | None =>
       modify (set_buffers (<[stream_id := []]> (buffers self))) ;;;
       modify (λ self, set_stream_queue (stream_queue self ++ [stream_id]) self)
   | Some _ => ret tt
   end) ;;;
  (if decide (flag = NewStream) then accept_stream else ret tt) ;;;
  match message with
  | [] => ret tt
  | _ :: _ =>
      self <- get ;;
      match buffers self !! stream_id with
      | None => raise KeyError
      | Some queue =>
          modify (set_buffers (<[stream_id := queue ++ [message]]> (buffers self)))
      end
  end.

(** One turn of the [while True] loop; [asyncio.sleep(0)] hands control
    over and comes back. *)
Definition handle_incoming_iteration : M t unit :=
  frame <- read_message ;;
  match frame with
  | Some (stream_id, flag, message) => dispatch stream_id flag message
  | None => ret tt
  end.

(** The first [iterations] turns of [handle_incoming]. *)
Fixpoint handle_incoming (iterations : nat) : M t unit :=
  match iterations with
  | O => ret tt
  | S k => handle_incoming_iteration ;;; handle_incoming k
  end.

(** [dispatch] on each frame of a list in turn, as the loop does with the
    frames that [read_message] hands it. *)
Fixpoint dispatch_all (frames : list (N * N * list byte)) : M t unit :=
  match frames with
  | [] => ret tt
  | (stream_id, flag, message) :: rest =>
      dispatch stream_id flag message ;;; dispatch_all rest
  end.

(** The peer's bytes arriving in the reader's buffer. *)
Definition receive (data : list byte) : M t unit :=
  modify (λ self, set_conn_reader (conn_reader self ++ data) self).

(** The calls that can be made on a connection. *)
Inductive call : Type :=
| Close
| IsClosed
| ReadBuffer (stream_id : N)
| ReadBufferNonblocking (stream_id : N)
| OpenStream
| AcceptStream
| SendMessage (flag : N) (data : option (list byte)) (stream_id : N)
| WriteToStream (_bytes : list byte)
| ReadMessage
| HandleIncoming (iterations : nat)
| Receive (data : list byte).

(** The state a call leaves behind, whatever its outcome. *)
Definition after (c : call) (self : t) : t :=
  match c with
  | Close => snd (close self)
  | IsClosed => snd (is_closed self)
  | ReadBuffer stream_id => snd (read_buffer stream_id self)
  | ReadBufferNonblocking stream_id => snd (read_buffer_nonblocking stream_id self)
  | OpenStream => snd (open_stream self)
  | AcceptStream => snd (accept_stream self)
  | SendMessage flag data stream_id => snd (send_message flag data stream_id self)
  | WriteToStream _bytes => snd (write_to_stream _bytes self)
  | ReadMessage => snd (read_message self)
  | HandleIncoming iterations => snd (handle_incoming iterations self)
  | Receive data => snd (receive data self)
  end.

Definition after_all (cs : list call) (self : t) : t :=
  foldl (λ self c, after c self) self cs.

(** A computation that takes no stream id out of [self.buffers]. *)
Definition keeps_streams {A} (c : M t A) : Prop :=
  ∀ self, dom (buffers self) ⊆ dom (buffers (snd (c self))).

(** The first step of [dispatch]: the queue of an unseen id is made,
    empty, and the id is put on [stream_queue]. *)
Definition register (stream_id : N) (self : t) : t :=
  match buffers self !! stream_id with
  | None =>
      set_stream_queue (stream_queue self ++ [stream_id])
        (set_buffers (<[stream_id := []]> (buffers self)) self)
  | Some _ => self
  end.

(** The non-empty payloads that a list of frames carries for one stream,
    in the order of the frames. *)
Definition payloads_for (stream_id : N) (frames : list (N * N * list byte))
  : list (list byte) :=
  omap (λ '(id, _, message),
          if decide (id = stream_id ∧ message ≠ []) then Some message else None)
       frames.

(** [read_buffer] called [k] times on one stream, with the chunks it
    returned; it stops at the first call that does not return. *)
Fixpoint read_buffer_times (k : nat) (stream_id : N) : M t (list (list byte)) :=
  match k with
  | O => ret []
  | S k =>
      chunk <- read_buffer stream_id ;;
      chunks <- read_buffer_times k stream_id ;;
      ret (chunk :: chunks)
  end.

(** The queue of a stream, empty when the stream has none. *)
Definition queue_of (stream_id : N) (self : t) : list (list byte) :=
  default [] (buffers self !! stream_id).

(** The second step of [dispatch] on a [NewStream] frame when an id
    waits: [accept_stream] takes the oldest id and schedules the handler
    on its handle. *)
Definition accepted (self : t) : t :=
  match stream_queue self with
  | [] => self
  | stream_id :: rest =>
      set_handler_tasks (handler_tasks self ++ [mkStream stream_id false])
        (set_stream_queue rest self)
  end.

(** The last step of [dispatch]: a non-empty message goes to the end of
    the queue of its stream. *)
Definition enqueue (stream_id : N) (message : list byte) (self : t) : t :=
  match message with
  | [] => self
  | _ :: _ =>
      set_buffers
        (<[stream_id := queue_of stream_id self ++ [message]]> (buffers self)) self
  end.

(** The bytes of a list of frames on the wire, each frame as
    [send_message] writes it. *)
Definition wire_of (frames : list (N * N * list byte)) : list byte :=
  flat_map (λ '(stream_id, flag, message),
              frame_bytes flag (Some message) stream_id) frames.

(** The ids of remote streams that the loop has announced: those handed
    to the handler, then those waiting in [stream_queue]. *)
Definition announced (self : t) : list N :=
  map stream_id (handler_tasks self) ++ stream_queue self.

(** No id is announced twice, every announced id has its queue, and the
    handler only gets handles of the receiving direction. *)
Definition accepts_once (self : t) : Prop :=
  NoDup (announced self)
  ∧ (∀ id, id ∈ announced self → id ∈ dom (buffers self))
  ∧ Forall (λ stream, initiator stream = false) (handler_tasks self).

(** The part of the connection that only [open_stream], [send_message],
    [write_to_stream] and [close] touch. *)
Definition outbound (self : t) : list byte * bool * (nat → N) * nat :=
  (conn_writer self, conn_closed self, conn_ids self, conn_allocated self).

End Mplex.

(** * Properties *)

(** ** Running a sequence of calls *)

Section Sequencing.
Context {S A B : Type}.

Lemma bind_returns (c : M S A) (k : A → M S B) (a : A) (s s' : S) :
  c s = (Ret a, s') → bind c k s = k a s'.
Proof. unfold bind. by intros ->. Qed.

Lemma bind_suspends (c : M S A) (k : A → M S B) (s s' : S) :
  c s = (Suspended, s') → bind c k s = (Suspended, s').
Proof. unfold bind. by intros ->. Qed.

Lemma bind_raises (c : M S A) (k : A → M S B) (e : exn) (s s' : S) :
  c s = (Raise e, s') → bind c k s = (Raise e, s').
Proof. unfold bind. by intros ->. Qed.

End Sequencing.

(** ** The varint codec *)

Section Varint.

Lemma land_low7_bound (n : N) : N.land n 0x7F < 128.
Proof.
  change 0x7F with (N.ones 7). rewrite N.land_ones.
  apply N.mod_lt. discriminate.
Qed.

Lemma lor_continuation_bound (n : N) : N.lor (N.land n 0x7F) 0x80 < 256.
Proof.
  change 256 with (2 ^ 8). apply N.log2_lt_pow2.
  - assert (N.lor (N.land n 0x7F) 0x80 ≠ 0); [|lia].
    intros H%N.lor_eq_0_iff. destruct H; discriminate.
  - rewrite N.log2_lor. apply N.max_lub_lt; [|reflexivity].
    pose proof (land_low7_bound n) as Hb.
    destruct (N.eq_dec (N.land n 0x7F) 0) as [->|Hnz]; [reflexivity|].
    assert (0 < N.land n 0x7F) as Hpos by lia.
    apply (proj1 (N.log2_lt_pow2 _ 7 Hpos)) in Hb. lia.
Qed.

Lemma to_N_byte_of_N (n : N) : n < 256 → Byte.to_N (byte_of_N n) = n.
Proof.
  intros Hn. unfold byte_of_N.
  destruct (Byte.of_N n) as [b|] eqn:Hb.
  - by apply Byte.to_of_N.
  - apply Byte.of_N_None_iff in Hb. lia.
Qed.

Lemma small_is_low7 (n : N) : N.shiftr n 7 = 0 → N.land n 0x7F = n.
Proof.
  intros H. change 0x7F with (N.ones 7). rewrite N.land_ones.
  apply N.mod_small. rewrite N.shiftr_div_pow2 in H.
  apply N.div_small_iff in H; [done|discriminate].
Qed.

Lemma split_low7 (n : N) :
  N.lor (N.land n 0x7F) (N.shiftl (N.shiftr n 7) 7) = n.
Proof.
  rewrite <- N.ldiff_ones_r. change 0x7F with (N.ones 7).
  rewrite N.lor_comm. apply N.lor_ldiff_and.
Qed.

Lemma last_byte_bits (n : N) :
  N.land (N.land n 0x7F) 0x80 = 0
  ∧ N.land (N.land n 0x7F) 0x7F = N.land n 0x7F.
Proof.
  rewrite <- !N.land_assoc.
  change (N.land 0x7F 0x80) with 0. change (N.land 0x7F 0x7F) with 0x7F.
  by rewrite N.land_0_r.
Qed.

Lemma continuation_byte_bits (n : N) :
  N.land (N.lor (N.land n 0x7F) 0x80) 0x80 = 0x80
  ∧ N.land (N.lor (N.land n 0x7F) 0x80) 0x7F = N.land n 0x7F.
Proof.
  rewrite !N.land_lor_distr_l.
  destruct (last_byte_bits n) as [-> ->].
  change (N.land 0x80 0x80) with 0x80. change (N.land 0x80 0x7F) with 0.
  by rewrite N.lor_0_l, N.lor_0_r.
Qed.

(** Decoding resumes correctly in the middle of a varint: with [result]
    accumulated below bit [shift], the bytes of [number] add [number]
    at [shift]. *)
Lemma decode_uvarint_loop_encode (number shift result : N) (rest : list byte) :
  decode_uvarint_loop shift result (encode_uvarint number ++ rest)
  = (Ret (N.lor result (N.shiftl number shift)), rest).
Proof.
  revert shift result.
  funelim (encode_uvarint number); intros shift result;
    cbn [app decode_uvarint_loop].
  - rewrite to_N_byte_of_N
      by (etrans; [apply land_low7_bound|reflexivity]).
    destruct (last_byte_bits number) as [-> ->].
    rewrite decide_True by done. by rewrite small_is_low7.
  - rewrite to_N_byte_of_N by apply lor_continuation_bound.
    destruct (continuation_byte_bits number) as [-> ->].
    rewrite decide_False by done.
    match goal with IH : ∀ _ _ _, decode_uvarint_loop _ _ _ = _ |- _ =>
      rewrite IH end.
    f_equal. f_equal. rewrite <- N.lor_assoc. f_equal.
    rewrite (N.add_comm shift 7), <- N.shiftl_shiftl, <- N.shiftl_lor.
    by rewrite split_low7.
Qed.

(** [decode_uvarint_from_stream] inverts [encode_uvarint] and leaves the
    bytes after the varint in the reader. *)
Lemma decode_encode_uvarint (number : N) (rest : list byte) :
  decode_uvarint_from_stream (encode_uvarint number ++ rest) = (Ret number, rest).
Proof.
  unfold decode_uvarint_from_stream. rewrite decode_uvarint_loop_encode.
  by rewrite N.shiftl_0_r, N.lor_0_l.
Qed.

(** A varint has at least one byte. *)
Lemma encode_uvarint_length (number : N) : (1 <= length (encode_uvarint number))%nat.
Proof. funelim (encode_uvarint number); cbn [length]; lia. Qed.

(** The decoder never raises anything but the timeout. *)
Lemma decode_uvarint_loop_outcome (shift result : N) (buf : list byte) :
  (∃ n, fst (decode_uvarint_loop shift result buf) = Ret n)
  ∨ decode_uvarint_loop shift result buf = (Raise TimeoutError, []).
Proof.
  revert shift result. induction buf as [|byte buf IH]; intros shift result.
  - by right.
  - cbn [decode_uvarint_loop]. case_decide; [left; eauto|apply IH].
Qed.

(** The values the spec gives. *)
Example encode_uvarint_40 : encode_uvarint 40 = [x28].
Proof. reflexivity. Qed.

Example encode_uvarint_18 : encode_uvarint 18 = [x12].
Proof. reflexivity. Qed.

Example encode_uvarint_0 : encode_uvarint 0 = [x00].
Proof. reflexivity. Qed.

Example encode_uvarint_300 : encode_uvarint 300 = [xac; x02].
Proof. reflexivity. Qed.

End Varint.

(** ** The frame codec: [send_message] and [read_message] *)

Section FrameCodec.
Import Mplex.

(** [send_message] hands [frame_bytes] to the writer and returns their
    number. *)
Lemma send_message_eq (flag : N) (data : option (list byte)) (stream_id : N)
    (self : Mplex.t) :
  send_message flag data stream_id self
  = (Ret (N.of_nat (length (frame_bytes flag data stream_id))),
     set_conn_writer (conn_writer self ++ frame_bytes flag data stream_id) self).
Proof. reflexivity. Qed.

Lemma frame_bytes_length (flag : N) (data : option (list byte)) (stream_id : N) :
  length (frame_bytes flag data stream_id)
  = (length (encode_uvarint (N.lor (N.shiftl stream_id 3) flag))
     + length (encode_uvarint (N.of_nat (length (default [] data))))
     + length (default [] data))%nat.
Proof.
  destruct data as [data|]; unfold default;
    cbn [frame_bytes from_option id]; rewrite !length_app;
    cbn [length]; change (N.of_nat 0) with 0; lia.
Qed.

(** Splitting a header gives back the two fields packed into it. *)
Lemma header_split (stream_id flag : N) :
  flag <= 7 →
  N.land (N.lor (N.shiftl stream_id 3) flag) 0x07 = flag
  ∧ N.shiftr (N.lor (N.shiftl stream_id 3) flag) 3 = stream_id.
Proof.
  intros Hflag. split.
  - rewrite N.land_lor_distr_l. change 0x07 with (N.ones 3).
    rewrite !N.land_ones, N.shiftl_mul_pow2.
    rewrite N.Div0.mod_mul, N.lor_0_l.
    apply N.mod_small. change (2 ^ 3) with 8. lia.
  - rewrite N.shiftr_lor, N.shiftr_shiftl_r, N.sub_diag, N.shiftr_0_r by done.
    rewrite (N.shiftr_div_pow2 flag), N.div_small, N.lor_0_r; [done|].
    change (2 ^ 3) with 8. lia.
Qed.

(** [wait_for_read] of the declared length on a reader that holds the
    whole payload. *)
Lemma wait_for_read_payload (payload rest : list byte) :
  wait_for_read (N.of_nat (length payload)) (payload ++ rest)
  = (Ret payload, rest).
Proof.
  unfold wait_for_read. rewrite Nat2N.id.
  destruct payload as [|b payload].
  - by rewrite decide_True.
  - rewrite decide_False by (cbn [length]; lia).
    change ((b :: payload) ++ rest) with (b :: (payload ++ rest)).
    cbv match. change (b :: payload ++ rest) with ((b :: payload) ++ rest).
    by rewrite take_app_length, drop_app_length.
Qed.

(** A reader that holds a frame as [send_message] wrote it, followed by
    anything, yields that frame and keeps what follows. *)
Lemma read_message_frame_bytes (stream_id flag : N) (data : option (list byte))
    (rest : list byte) (self : Mplex.t) :
  flag <= 7 →
  conn_reader self = frame_bytes flag data stream_id ++ rest →
  read_message self
  = (Ret (Some (stream_id, flag, default [] data)), set_conn_reader rest self).
Proof.
  intros Hflag Hreader.
  assert (conn_reader self
          = encode_uvarint (N.lor (N.shiftl stream_id 3) flag)
            ++ encode_uvarint (N.of_nat (length (default [] data)))
            ++ default [] data ++ rest) as Hwire.
  { rewrite Hreader. destruct data; unfold default;
      cbn [frame_bytes from_option id length];
      change (N.of_nat 0) with 0; by rewrite <- ?app_assoc. }
  unfold read_message, try_except, bind, on_reader.
  rewrite Hwire, decode_encode_uvarint. cbn [conn_reader set_conn_reader].
  rewrite decode_encode_uvarint. cbn [conn_reader set_conn_reader].
  rewrite wait_for_read_payload.
  destruct (header_split stream_id flag Hflag) as [-> ->].
  reflexivity.
Qed.

(** The two scenarios of the spec, as bytes. *)
Example scenario_A :
  frame_bytes 0 (Some []) 5 = [x28; x00]
  ∧ fst (read_message (fresh [x28; x00])) = Ret (Some (5, 0, [])).
Proof. split; reflexivity. Qed.

Example scenario_B :
  frame_bytes 2 (Some [x68; x65; x6c; x6c; x6f]) 2
  = [x12; x05; x68; x65; x6c; x6c; x6f]
  ∧ fst (read_message (fresh [x12; x05; x68; x65; x6c; x6c; x6f]))
    = Ret (Some (2, 2, [x68; x65; x6c; x6c; x6f])).
Proof. split; reflexivity. Qed.

(** C1. Round trip of the frame codec: for every stream id below 2^61,
    every flag from 0 to 7 and every payload, the bytes that
    [send_message] writes for (stream id, flag, payload), the varint of
    [(stream_id << 3) | flag], the varint of the payload length and the
    payload, are read back by [read_message] as exactly that stream id
    ([header >> 3]), that flag ([header & 0x7]) and that payload, and
    nothing is left in the reader. *)
Theorem frame_codec_round_trip (stream_id flag : N) (payload : list byte)
    (sender receiver : Mplex.t) :
  stream_id < 2 ^ 61 →
  flag <= 7 →
  ∃ wire : list byte,
    wire = encode_uvarint (N.lor (N.shiftl stream_id 3) flag)
           ++ encode_uvarint (N.of_nat (length payload)) ++ payload
    ∧ conn_writer (snd (send_message flag (Some payload) stream_id sender))
      = conn_writer sender ++ wire
    ∧ read_message (set_conn_reader wire receiver)
      = (Ret (Some (stream_id, flag, payload)), set_conn_reader [] receiver).
Proof.
  intros _ Hflag. eexists. split; [reflexivity|]. split; [reflexivity|].
  rewrite (read_message_frame_bytes stream_id flag (Some payload) []
             (set_conn_reader _ receiver) Hflag).
  - reflexivity.
  - cbn [conn_reader set_conn_reader frame_bytes]. by rewrite app_nil_r.
Qed.

Lemma frame_codec_round_trip_witness :
  2 < 2 ^ 61
  ∧ 2 <= 7
  ∧ ∃ wire : list byte,
      wire = encode_uvarint (N.lor (N.shiftl 2 3) 2)
             ++ encode_uvarint (N.of_nat (length [x68; x65; x6c; x6c; x6f]))
             ++ [x68; x65; x6c; x6c; x6f]
      ∧ conn_writer
          (snd (send_message 2 (Some [x68; x65; x6c; x6c; x6f]) 2 (fresh [])))
        = conn_writer (fresh []) ++ wire
      ∧ read_message (set_conn_reader wire (fresh []))
        = (Ret (Some (2, 2, [x68; x65; x6c; x6c; x6f])),
           set_conn_reader [] (fresh [])).
Proof.
  split; [reflexivity|]. split; [discriminate|].
  apply (frame_codec_round_trip 2 2 [x68; x65; x6c; x6c; x6f]
           (fresh []) (fresh [])); [reflexivity|discriminate].
Defined.

(** C10. Bytes-written count: for every flag, stream id and data,
    [send_message] returns the length of the frame it writes: the length
    of the varint of [(stream_id << 3) | flag] plus the length of the
    varint of the payload length plus the payload length, absent data
    counting as an empty payload; that number exceeds the payload length
    (by two at least). *)
Theorem send_message_returns_frame_length (flag : N)
    (data : option (list byte)) (stream_id : N) (self : Mplex.t) :
  let payload := default [] data in
  let total :=
    (length (encode_uvarint (N.lor (N.shiftl stream_id 3) flag))
     + length (encode_uvarint (N.of_nat (length payload)))
     + length payload)%nat in
  let self' := snd (send_message flag data stream_id self) in
  fst (send_message flag data stream_id self) = Ret (N.of_nat total)
  ∧ length (conn_writer self') = (length (conn_writer self) + total)%nat
  ∧ (length payload + 2 <= total)%nat
  ∧ N.of_nat (length payload) < N.of_nat total.
Proof.
  intros payload total self'. subst payload total self'.
  rewrite send_message_eq. cbn [fst snd conn_writer set_conn_writer].
  rewrite length_app, frame_bytes_length.
  pose proof (encode_uvarint_length (N.lor (N.shiftl stream_id 3) flag)).
  pose proof (encode_uvarint_length (N.of_nat (length (default [] data)))).
  repeat split; lia.
Qed.

End FrameCodec.

(** ** What [read_message] can answer *)

Section ReadMessage.
Import Mplex.

Lemma wait_for_read_outcome (n : N) (buf : list byte) :
  (∃ message, fst (wait_for_read n buf) = Ret message)
  ∨ wait_for_read n buf = (Raise TimeoutError, buf).
Proof.
  unfold wait_for_read. case_decide; [left; eauto|].
  destruct buf; [by right|left; eauto].
Qed.

(** [read_message] returns a frame or the triple of [None]s, and touches
    nothing but the reader. *)
Lemma read_message_cases (self : Mplex.t) :
  (∃ frame buf, read_message self = (Ret (Some frame), set_conn_reader buf self))
  ∨ (∃ buf, read_message self = (Ret None, set_conn_reader buf self)).
Proof.
  unfold read_message, try_except, bind, on_reader, ret,
    decode_uvarint_from_stream.
  destruct (decode_uvarint_loop_outcome 0 0 (conn_reader self))
    as [[header Hh]| ->]; [|right; by eexists].
  destruct (decode_uvarint_loop 0 0 (conn_reader self)) as [o1 buf1].
  cbn [fst] in Hh. subst o1. cbn [conn_reader set_conn_reader].
  destruct (decode_uvarint_loop_outcome 0 0 buf1)
    as [[len Hl]| ->]; [|right; by eexists].
  destruct (decode_uvarint_loop 0 0 buf1) as [o2 buf2].
  cbn [fst] in Hl. subst o2. cbn [conn_reader set_conn_reader].
  destruct (wait_for_read_outcome len buf2)
    as [[message Hm]| ->]; [|right; by eexists].
  destruct (wait_for_read len buf2) as [o3 buf3].
  cbn [fst] in Hm. subst o3. left. by do 2 eexists.
Qed.

Lemma read_message_buffers (self : Mplex.t) :
  buffers (snd (read_message self)) = buffers self.
Proof.
  destruct (read_message_cases self) as [(frame & buf & ->)|(buf & ->)];
    reflexivity.
Qed.

End ReadMessage.

(** ** The stream table [self.buffers] *)

Section StreamTable.
Import Mplex.

Lemma keeps_streams_bind {A B} (c : M Mplex.t A) (k : A → M Mplex.t B) :
  keeps_streams c → (∀ a, keeps_streams (k a)) → keeps_streams (bind c k).
Proof.
  intros Hc Hk self. unfold bind. specialize (Hc self).
  destruct (c self) as [[a|e|] self1]; cbn [snd] in *; [|done..].
  etrans; [exact Hc|apply Hk].
Qed.

Lemma keeps_streams_ret {A} (a : A) : keeps_streams (ret a).
Proof. by intros self. Qed.

Lemma read_buffer_keeps (stream_id : N) : keeps_streams (read_buffer stream_id).
Proof.
  intros self. unfold read_buffer, bind, get.
  destruct (buffers self !! stream_id) as [[|chunk rest]|]; cbn; [done| |done].
  rewrite dom_insert_L. set_solver.
Qed.

Lemma read_buffer_nonblocking_keeps (stream_id : N) :
  keeps_streams (read_buffer_nonblocking stream_id).
Proof.
  intros self. unfold read_buffer_nonblocking, bind, get.
  destruct (buffers self !! stream_id) as [[|chunk rest]|]; cbn; [done| |done].
  rewrite dom_insert_L. set_solver.
Qed.

Lemma open_stream_keeps : keeps_streams open_stream.
Proof. intros self. cbn. rewrite dom_insert_L. set_solver. Qed.

Lemma accept_stream_keeps : keeps_streams accept_stream.
Proof.
  intros self. unfold accept_stream, bind, get.
  by destruct (stream_queue self).
Qed.

Lemma dispatch_keeps (stream_id flag : N) (message : list byte) :
  keeps_streams (dispatch stream_id flag message).
Proof.
  unfold dispatch. apply keeps_streams_bind; [|intros _; apply keeps_streams_bind].
  - intros self. unfold bind, get.
    destruct (buffers self !! stream_id); cbn; [done|].
    rewrite dom_insert_L. set_solver.
  - case_decide; [apply accept_stream_keeps|apply keeps_streams_ret].
  - intros _. destruct message as [|b message]; [apply keeps_streams_ret|].
    intros self. unfold bind, get.
    destruct (buffers self !! stream_id); cbn; [|done].
    rewrite dom_insert_L. set_solver.
Qed.

Lemma read_message_keeps : keeps_streams read_message.
Proof. intros self. by rewrite read_message_buffers. Qed.

Lemma handle_incoming_iteration_keeps : keeps_streams handle_incoming_iteration.
Proof.
  apply keeps_streams_bind; [apply read_message_keeps|].
  intros [[[stream_id flag] message]|];
    [apply dispatch_keeps|apply keeps_streams_ret].
Qed.

Lemma handle_incoming_keeps (iterations : nat) :
  keeps_streams (handle_incoming iterations).
Proof.
  induction iterations as [|k IH]; [apply keeps_streams_ret|].
  apply keeps_streams_bind; [apply handle_incoming_iteration_keeps|done].
Qed.

(** No call takes a stream id out of the table. *)
Lemma after_keeps (c : call) (self : Mplex.t) :
  dom (buffers self) ⊆ dom (buffers (after c self)).
Proof.
  destruct c; cbn [after].
  - done.
  - done.
  - apply read_buffer_keeps.
  - apply read_buffer_nonblocking_keeps.
  - apply open_stream_keeps.
  - apply accept_stream_keeps.
  - done.
  - done.
  - apply read_message_keeps.
  - apply handle_incoming_keeps.
  - done.
Qed.

Lemma after_all_keeps (cs : list call) (self : Mplex.t) :
  dom (buffers self) ⊆ dom (buffers (after_all cs self)).
Proof.
  revert self. induction cs as [|c cs IH]; intros self; [done|].
  cbn [after_all foldl]. etrans; [apply (after_keeps c)|apply IH].
Qed.

Lemma read_buffer_known (stream_id : N) (self : Mplex.t) :
  stream_id ∈ dom (buffers self) →
  fst (read_buffer stream_id self) ≠ Raise StreamNotFound
  ∧ fst (read_buffer_nonblocking stream_id self) ≠ Raise StreamNotFound.
Proof.
  intros [queue Hq]%elem_of_dom.
  unfold read_buffer, read_buffer_nonblocking, bind, get. rewrite Hq.
  by destruct queue.
Qed.

(** C4. Postcondition of [open_stream]: every call takes the next id of
    the connection's counter, makes the queue of that id in [buffers]
    empty, builds the handle with that id and the initiator direction,
    writes exactly one frame to the transport, a [NewStream] frame of
    that id whose length varint is 0 and that has no payload byte, and
    returns the handle. *)
Theorem open_stream_postcondition (self peer : Mplex.t) :
  let stream_id := conn_ids self (conn_allocated self) in
  let self' := snd (open_stream self) in
  let frame :=
    encode_uvarint (N.lor (N.shiftl stream_id 3) NewStream) ++ [x00] in
  fst (open_stream self) = Ret (mkStream stream_id true)
  ∧ conn_allocated self' = S (conn_allocated self)
  ∧ buffers self' = <[stream_id := []]> (buffers self)
  ∧ conn_writer self' = conn_writer self ++ frame
  ∧ encode_uvarint 0 = [x00]
  ∧ read_message (set_conn_reader frame peer)
    = (Ret (Some (stream_id, NewStream, [])), set_conn_reader [] peer)
  ∧ stream_queue self' = stream_queue self
  ∧ handler_tasks self' = handler_tasks self.
Proof.
  intros stream_id self' frame. subst self' frame.
  repeat split.
  rewrite (read_message_frame_bytes stream_id NewStream None []
             (set_conn_reader _ peer)); [reflexivity|discriminate|].
  cbn [conn_reader set_conn_reader frame_bytes]. by rewrite app_nil_r.
Qed.

(** C5. Unknown id: for a stream id that is not a key of [buffers], both
    [read_buffer] and [read_buffer_nonblocking] raise [StreamNotFound]
    and leave the whole state, table and queues included, as it was. *)
Theorem unknown_stream_id_raises (stream_id : N) (self : Mplex.t) :
  stream_id ∉ dom (buffers self) →
  read_buffer stream_id self = (Raise StreamNotFound, self)
  ∧ read_buffer_nonblocking stream_id self = (Raise StreamNotFound, self).
Proof.
  intros Hnone%not_elem_of_dom.
  unfold read_buffer, read_buffer_nonblocking, bind, get.
  by rewrite Hnone.
Qed.

Lemma unknown_stream_id_raises_witness :
  (7 ∉ dom (buffers (snd (open_stream (fresh [])))))
  ∧ read_buffer 7 (snd (open_stream (fresh [])))
    = (Raise StreamNotFound, snd (open_stream (fresh [])))
  ∧ read_buffer_nonblocking 7 (snd (open_stream (fresh [])))
    = (Raise StreamNotFound, snd (open_stream (fresh []))).
Proof.
  assert (7 ∉ dom (buffers (snd (open_stream (fresh []))))) as Hnot.
  { apply not_elem_of_dom. reflexivity. }
  split; [exact Hnot|].
  exact (unknown_stream_id_raises 7 (snd (open_stream (fresh []))) Hnot).
Defined.

(** C9. Membership in the stream table: the id of the handle that
    [open_stream] returns is a key of [buffers] when [open_stream]
    returns; no call on the multiplexer removes a key of [buffers]; so
    after any calls whatever, [read_buffer] and
    [read_buffer_nonblocking] on the id of a locally opened stream do not
    raise [StreamNotFound]. *)
Theorem opened_stream_stays_known (self : Mplex.t) (cs : list call) :
  let stream_id := conn_ids self (conn_allocated self) in
  let opened := snd (open_stream self) in
  let later := after_all cs opened in
  fst (open_stream self) = Ret (mkStream stream_id true)
  ∧ stream_id ∈ dom (buffers opened)
  ∧ (∀ (c : call) (s : Mplex.t), dom (buffers s) ⊆ dom (buffers (after c s)))
  ∧ stream_id ∈ dom (buffers later)
  ∧ fst (read_buffer stream_id later) ≠ Raise StreamNotFound
  ∧ fst (read_buffer_nonblocking stream_id later) ≠ Raise StreamNotFound.
Proof.
  intros stream_id opened later.
  assert (stream_id ∈ dom (buffers opened)) as Hopened.
  { subst opened. cbn. rewrite dom_insert_L. set_solver. }
  assert (stream_id ∈ dom (buffers later)) as Hlater.
  { subst later. by apply (after_all_keeps cs opened). }
  split; [reflexivity|]. split; [done|]. split; [apply after_keeps|].
  split; [done|]. by apply read_buffer_known.
Qed.

End StreamTable.

(** ** Closing *)

Section Closing.
Import Mplex.

(** C8, as the spec has it, fails: after [close()] the connection is
    torn down, and [is_closed] raises instead of returning [True]. *)
Lemma is_closed_after_close_raises :
  conn_closed (snd (close (fresh []))) = true
  ∧ fst (is_closed (snd (close (fresh [])))) = Raise NotImplementedError
  ∧ ¬ ∃ b : bool, fst (is_closed (snd (close (fresh [])))) = Ret b.
Proof.
  split; [reflexivity|]. split; [reflexivity|].
  intros [b Hb]. discriminate Hb.
Qed.

(** C8, amended. [is_closed] is not implemented: in every state of the
    connection, after [close()] too, it raises [NotImplementedError],
    returns no boolean and changes nothing; [close()] closes the
    underlying connection and records nothing else. *)
Theorem is_closed_not_implemented (self : Mplex.t) :
  is_closed self = (Raise NotImplementedError, self)
  ∧ is_closed (snd (close self)) = (Raise NotImplementedError, snd (close self))
  ∧ close self = (Ret tt, set_conn_closed true self).
Proof. repeat split. Qed.

End Closing.

(** ** Decode failures *)

Section DecodeFailure.
Import Mplex.

(** C6, as the spec has it, fails.  A header, a declared length of 5 and
    no payload byte: the answer is the triple of [None]s, the very
    answer an idle connection gets.  The same with two payload bytes:
    the two bytes come back as the payload of a decoded frame. *)
Lemma unsatisfied_length_is_no_failure :
  fst (read_message (fresh [x28; x05])) = Ret None
  ∧ fst (read_message (fresh [])) = Ret None
  ∧ fst (read_message (fresh [x28; x05; x68; x69]))
    = Ret (Some (5, 0, [x68; x69])).
Proof. repeat split. Qed.

(** C6, amended. When the header and a non-zero declared length have
    arrived and no payload byte follows within the bound, [read_message]
    signals no decode failure: it returns the triple of [None]s, with
    the bytes read so far taken from the reader, and that is exactly
    what it returns for "no frame yet" on the connection once idle. *)
Theorem unsatisfied_length_answers_no_frame_yet (self : Mplex.t)
    (header length : N) :
  0 < length →
  conn_reader self = encode_uvarint header ++ encode_uvarint length →
  read_message self = (Ret None, set_conn_reader [] self)
  ∧ read_message (set_conn_reader [] self) = (Ret None, set_conn_reader [] self).
Proof.
  intros Hlen Hreader. split; [|reflexivity].
  unfold read_message, try_except, bind, on_reader.
  rewrite Hreader, decode_encode_uvarint. cbn [conn_reader set_conn_reader].
  rewrite <- (app_nil_r (encode_uvarint length)), decode_encode_uvarint.
  cbn [conn_reader set_conn_reader]. unfold wait_for_read.
  rewrite decide_False by lia. reflexivity.
Qed.

Lemma unsatisfied_length_answers_no_frame_yet_witness :
  0 < 5
  ∧ conn_reader (fresh [x28; x05]) = encode_uvarint 40 ++ encode_uvarint 5
  ∧ read_message (fresh [x28; x05])
    = (Ret None, set_conn_reader [] (fresh [x28; x05]))
  ∧ read_message (set_conn_reader [] (fresh [x28; x05]))
    = (Ret None, set_conn_reader [] (fresh [x28; x05])).
Proof.
  split; [reflexivity|]. split; [reflexivity|].
  apply (unsatisfied_length_answers_no_frame_yet (fresh [x28; x05]) 40 5);
    reflexivity.
Defined.

End DecodeFailure.

(** ** The demultiplex loop *)

Section Demultiplex.
Import Mplex.

(** X3. A [NewStream] frame for an id without a queue, while no id waits in
    [stream_queue]: [accept_stream] runs once, builds the handle of that
    id with the receiver direction and schedules the handler on it. *)
Lemma dispatch_new_stream_unseen (stream_id : N) (message : list byte)
    (self : Mplex.t) :
  buffers self !! stream_id = None →
  stream_queue self = [] →
  let r := dispatch stream_id NewStream message self in
  fst r = Ret tt
  ∧ handler_tasks (snd r) = handler_tasks self ++ [mkStream stream_id false]
  ∧ stream_queue (snd r) = [].
Proof.
  intros Hnone Hqueue. unfold dispatch, bind, get, accept_stream, modify.
  rewrite Hnone. cbn. rewrite Hqueue.
  destruct (decide (NewStream = NewStream)); [|done]. cbn.
  destruct message; cbn; [done|].
  rewrite lookup_insert_eq. done.
Qed.

Lemma register_lookup (stream_id : N) (self : Mplex.t) :
  buffers (register stream_id self) !! stream_id
  = Some (queue_of stream_id self).
Proof.
  unfold register, queue_of.
  destruct (buffers self !! stream_id) as [queue|] eqn:Hq; cbn.
  - done.
  - by rewrite lookup_insert_eq.
Qed.

Lemma register_queue_of (stream_id s : N) (self : Mplex.t) :
  queue_of s (register stream_id self) = queue_of s self.
Proof.
  unfold register, queue_of.
  destruct (buffers self !! stream_id) as [queue|] eqn:Hq; cbn; [done|].
  destruct (decide (stream_id = s)) as [->|Hne].
  - by rewrite lookup_insert_eq, Hq.
  - by rewrite lookup_insert_ne.
Qed.

Lemma accept_stream_cases (self : Mplex.t) :
  (stream_queue self = [] ∧ accept_stream self = (Suspended, self))
  ∨ (∃ self', accept_stream self = (Ret tt, self')
              ∧ buffers self' = buffers self).
Proof.
  unfold accept_stream, bind, get.
  destruct (stream_queue self) as [|next pending]; [by left|right].
  by eexists.
Qed.

(** The last step of [dispatch]: a non-empty payload goes to the end of
    the queue of its stream. *)
Lemma put_queue_of (stream_id flag s : N) (message : list byte)
    (queue : list (list byte)) (self : Mplex.t) :
  buffers self !! stream_id = Some queue →
  let put : M Mplex.t unit :=
    match message with
    | [] => ret tt
    | _ :: _ =>
        self <- get ;;
        match buffers self !! stream_id with
        | None => raise KeyError
        | Some queue =>
            modify (set_buffers (<[stream_id := queue ++ [message]]> (buffers self)))
        end
    end in
  fst (put self) = Ret tt
  ∧ queue_of s (snd (put self))
    = queue_of s self ++ payloads_for s [(stream_id, flag, message)].
Proof.
  intros Hq put. subst put. unfold payloads_for. cbn [omap list_omap].
  destruct message as [|b message].
  - rewrite decide_False by (by intros [_ ?]). by rewrite app_nil_r.
  - unfold bind, get. rewrite Hq. cbn. split; [done|].
    unfold queue_of. cbn.
    destruct (decide (stream_id = s)) as [->|Hne].
    + rewrite decide_True by done. by rewrite lookup_insert_eq, Hq.
    + rewrite decide_False by (by intros [? _]).
      by rewrite lookup_insert_ne, app_nil_r.
Qed.

(** What one frame does to the queue of a stream: when [dispatch]
    returns, a non-empty payload of that stream is at the end of its
    queue and nothing else changed in it; when [dispatch] stays in
    [accept_stream], no queue has changed; [dispatch] does not raise. *)
Lemma dispatch_queue_of (stream_id flag : N) (message : list byte)
    (self : Mplex.t) (s : N) :
  match fst (dispatch stream_id flag message self) with
  | Ret _ =>
      queue_of s (snd (dispatch stream_id flag message self))
      = queue_of s self ++ payloads_for s [(stream_id, flag, message)]
  | Suspended =>
      queue_of s (snd (dispatch stream_id flag message self)) = queue_of s self
  | Raise _ => False
  end.
Proof.
  assert ((self <- get ;;
           match buffers self !! stream_id with
           | None =>
               modify (set_buffers (<[stream_id := []]> (buffers self))) ;;;
               modify (λ self, set_stream_queue (stream_queue self ++ [stream_id]) self)
           | Some _ => ret tt
           end) self = (Ret tt, register stream_id self)) as Hfirst.
  { unfold bind, get, register. by destruct (buffers self !! stream_id). }
  unfold dispatch. rewrite (bind_returns _ _ _ _ _ Hfirst).
  pose proof (register_lookup stream_id self) as Hlookup.
  pose proof (register_queue_of stream_id s self) as Hsame.
  destruct (decide (flag = NewStream)) as [Hflag|Hflag].
  - destruct (accept_stream_cases (register stream_id self))
      as [[_ Hacc]|(self2 & Hacc & Hbuf)].
    + rewrite (bind_suspends _ _ _ _ Hacc). exact Hsame.
    + rewrite (bind_returns _ _ _ _ _ Hacc).
      rewrite <- Hbuf in Hlookup.
      destruct (put_queue_of stream_id flag s message _ self2 Hlookup)
        as [-> ->].
      f_equal. unfold queue_of. by rewrite Hbuf.
  - rewrite (bind_returns _ _ tt _ (register stream_id self)) by done.
    destruct (put_queue_of stream_id flag s message _ _ Hlookup) as [-> ->].
    by f_equal.
Qed.

Lemma payloads_for_cons (s : N) (frame : N * N * list byte)
    (frames : list (N * N * list byte)) :
  payloads_for s (frame :: frames)
  = payloads_for s [frame] ++ payloads_for s frames.
Proof.
  unfold payloads_for. cbn [omap list_omap].
  destruct frame as [[id flag] message]. by case_decide.
Qed.

(** X2. Successive calls of [read_buffer] on a stream return the chunks
    of its queue from the oldest on, and leave the others in the queue. *)
Lemma read_buffer_times_in_order (chunks rest : list (list byte))
    (stream_id : N) (self : Mplex.t) :
  buffers self !! stream_id = Some (chunks ++ rest) →
  fst (read_buffer_times (length chunks) stream_id self) = Ret chunks
  ∧ queue_of stream_id (snd (read_buffer_times (length chunks) stream_id self))
    = rest.
Proof.
  revert self. induction chunks as [|chunk chunks IH]; intros self Hq.
  - unfold queue_of. cbn. by rewrite Hq.
  - cbn [length read_buffer_times].
    assert (read_buffer stream_id self
            = (Ret chunk,
               set_buffers (<[stream_id := chunks ++ rest]> (buffers self)) self))
      as Hread.
    { unfold read_buffer, bind, get. by rewrite Hq. }
    rewrite (bind_returns _ _ _ _ _ Hread).
    destruct (IH (set_buffers (<[stream_id := chunks ++ rest]> (buffers self)) self))
      as [Hret Hrest]; [cbn; by rewrite lookup_insert_eq|].
    unfold bind.
    destruct (read_buffer_times (length chunks) stream_id _) as [o self2].
    cbn [fst snd] in Hret, Hrest. by subst o.
Qed.

(** C2. New-stream dispatch, evaluated where it goes wrong.
    (1) A message frame for the unseen stream 1 and then a [NewStream]
    frame for stream 2: the handler is invoked once, on a handle of
    stream 1, and stream 2 stays in [stream_queue].
    (2) Two [NewStream] frames for stream 3: the second finds an empty
    [stream_queue], the loop stays in [accept_stream], and the handler
    has been invoked once for the two frames.
    (3) A [NewStream] frame for stream 0 after [open_stream] gave id 0:
    the loop stays in [accept_stream] and the handler is not invoked. *)
Theorem new_stream_dispatch_wrong_stream :
  (fst (read_message (fresh [x09; x01; x61; x10; x00]))
     = Ret (Some (1, 1, [x61]))
   ∧ fst (handle_incoming 2 (fresh [x09; x01; x61; x10; x00])) = Ret tt
   ∧ handler_tasks (snd (handle_incoming 2 (fresh [x09; x01; x61; x10; x00])))
     = [mkStream 1 false]
   ∧ stream_queue (snd (handle_incoming 2 (fresh [x09; x01; x61; x10; x00])))
     = [2]
   ∧ snd (dispatch_all [(1, 1, [x61]); (2, NewStream, [])] (fresh []))
     = snd (handle_incoming 2 (fresh [x09; x01; x61; x10; x00])))
  ∧ (fst (handle_incoming 2 (fresh [x18; x00; x18; x00])) = Suspended
     ∧ handler_tasks (snd (handle_incoming 2 (fresh [x18; x00; x18; x00])))
       = [mkStream 3 false])
  ∧ (fst (open_stream (fresh [x00; x00])) = Ret (mkStream 0 true)
     ∧ fst (handle_incoming 1 (snd (open_stream (fresh [x00; x00]))))
       = Suspended
     ∧ handler_tasks (snd (handle_incoming 1 (snd (open_stream (fresh [x00; x00])))))
       = []).
Proof. repeat split. Qed.

(** C3. Per-stream delivery, evaluated where it goes wrong.  Two
    [NewStream] frames for stream 3, the second with the payload [x]:
    the loop has read the second frame, stays in [accept_stream], and
    the payload is in no queue; a [read_buffer] on stream 3 waits. *)
Theorem payload_lost_in_accept_stream :
  fst (handle_incoming 2 (fresh [x18; x00; x18; x01; x78])) = Suspended
  ∧ conn_reader (snd (handle_incoming 2 (fresh [x18; x00; x18; x01; x78]))) = []
  ∧ buffers (snd (handle_incoming 2 (fresh [x18; x00; x18; x01; x78]))) !! 3
    = Some []
  ∧ fst (read_buffer 3 (snd (handle_incoming 2 (fresh [x18; x00; x18; x01; x78]))))
    = Suspended
  ∧ fst (dispatch_all [(3, NewStream, []); (3, NewStream, [x78])] (fresh []))
    = Suspended
  ∧ queue_of 3 (snd (dispatch_all [(3, NewStream, []); (3, NewStream, [x78])]
                       (fresh [])))
    = [].
Proof. repeat split. Qed.

End Demultiplex.

(** ** The raw connection *)

Section RawConnectionErrors.
Import RawConnection.
Context {T : Type} `{Transport T}.



End RawConnectionErrors.

Section RawConnectionOnPipe.
Import RawConnection.


End RawConnectionOnPipe.

(** * Further properties of the code *)

(** ** [dispatch] step by step *)

Section DispatchSteps.
Import Mplex.

Lemma preserves_bind {S A B : Type} (P : S → Prop) (c : M S A) (k : A → M S B) :
  preserves P c → (∀ a, preserves P (k a)) → preserves P (bind c k).
Proof.
  intros Hc Hk s Hs. unfold bind. specialize (Hc s Hs).
  destruct (c s) as [[a|e|] s1]; cbn [snd] in *; [|done..].
  by apply Hk.
Qed.

Lemma preserves_ret {S A : Type} (P : S → Prop) (a : A) :
  preserves P (ret (S:=S) a).
Proof. by intros s. Qed.

Lemma accepted_buffers (self : Mplex.t) : buffers (accepted self) = buffers self.
Proof. unfold accepted. by destruct (stream_queue self). Qed.

Lemma accept_stream_eq (self : Mplex.t) :
  accept_stream self
  = match stream_queue self with
    | [] => (Suspended, self)
    | _ :: _ => (Ret tt, accepted self)
    end.
Proof.
  unfold accept_stream, accepted, bind, get.
  by destruct (stream_queue self).
Qed.

(** [dispatch] in one piece: the id is registered; on a [NewStream]
    frame the oldest waiting id is accepted, or the call stays in
    [accept_stream] when none waits; then the message is enqueued. *)
Lemma dispatch_eq (stream_id flag : N) (message : list byte) (self : Mplex.t) :
  dispatch stream_id flag message self
  = if decide (flag = NewStream) then
      match stream_queue (register stream_id self) with
      | [] => (Suspended, register stream_id self)
      | _ :: _ =>
          (Ret tt, enqueue stream_id message (accepted (register stream_id self)))
      end
    else (Ret tt, enqueue stream_id message (register stream_id self)).
Proof.
  assert ((self <- get ;;
           match buffers self !! stream_id with
           | None =>
               modify (set_buffers (<[stream_id := []]> (buffers self))) ;;;
               modify (λ self, set_stream_queue (stream_queue self ++ [stream_id]) self)
           | Some _ => ret tt
           end) self = (Ret tt, register stream_id self)) as Hfirst.
  { unfold bind, get, register. by destruct (buffers self !! stream_id). }
  assert (∀ self2 : Mplex.t,
            buffers self2 = buffers (register stream_id self) →
            match message with
            | [] => ret tt
            | _ :: _ =>
                self <- get ;;
                match buffers self !! stream_id with
                | None => raise KeyError
                | Some queue =>
                    modify (set_buffers (<[stream_id := queue ++ [message]]> (buffers self)))
                end
            end self2 = (Ret tt, enqueue stream_id message self2)) as Hlast.
  { intros self2 Hbuf. unfold enqueue, queue_of, bind, get.
    destruct message as [|b message]; [done|].
    by rewrite Hbuf, register_lookup. }
  unfold dispatch. rewrite (bind_returns _ _ _ _ _ Hfirst).
  case_decide.
  - destruct (stream_queue (register stream_id self)) as [|next rest] eqn:Hsq.
    + apply bind_suspends. by rewrite accept_stream_eq, Hsq.
    + assert (accept_stream (register stream_id self)
              = (Ret tt, accepted (register stream_id self))) as Hacc
        by (by rewrite accept_stream_eq, Hsq).
      rewrite (bind_returns _ _ _ _ _ Hacc).
      apply Hlast, accepted_buffers.
  - rewrite (bind_returns _ _ tt _ (register stream_id self)) by done.
    by apply Hlast.
Qed.

End DispatchSteps.

(** ** The loop, frame by frame *)

Section LoopSteps.
Import Mplex.

Lemma register_outbound (stream_id : N) (self : Mplex.t) :
  outbound (register stream_id self) = outbound self
  ∧ handler_tasks (register stream_id self) = handler_tasks self
  ∧ conn_reader (register stream_id self) = conn_reader self.
Proof. unfold register. by destruct (buffers self !! stream_id). Qed.

Lemma accepted_outbound (self : Mplex.t) :
  outbound (accepted self) = outbound self
  ∧ conn_reader (accepted self) = conn_reader self.
Proof. unfold accepted. by destruct (stream_queue self). Qed.

Lemma enqueue_outbound (stream_id : N) (message : list byte) (self : Mplex.t) :
  outbound (enqueue stream_id message self) = outbound self
  ∧ handler_tasks (enqueue stream_id message self) = handler_tasks self
  ∧ stream_queue (enqueue stream_id message self) = stream_queue self
  ∧ conn_reader (enqueue stream_id message self) = conn_reader self.
Proof. unfold enqueue. by destruct message. Qed.

Lemma dispatch_outbound (stream_id flag : N) (message : list byte)
    (self : Mplex.t) :
  outbound (snd (dispatch stream_id flag message self)) = outbound self.
Proof.
  rewrite dispatch_eq.
  destruct (register_outbound stream_id self) as (Hreg & _ & _).
  case_decide; [destruct (stream_queue (register stream_id self))|];
    cbn [snd]; [done| |].
  - by rewrite (proj1 (enqueue_outbound _ _ _)), (proj1 (accepted_outbound _)).
  - by rewrite (proj1 (enqueue_outbound _ _ _)).
Qed.

(** One turn of the loop returns or stays in [accept_stream]. *)
Lemma handle_incoming_iteration_outcome (self : Mplex.t) :
  fst (handle_incoming_iteration self) = Ret tt
  ∨ fst (handle_incoming_iteration self) = Suspended.
Proof.
  unfold handle_incoming_iteration.
  destruct (read_message_cases self) as [(frame & buf & Hr)|(buf & Hr)];
    rewrite (bind_returns _ _ _ _ _ Hr); [|by left].
  destruct frame as [[stream_id flag] message]. rewrite dispatch_eq.
  case_decide; [|by left].
  destruct (stream_queue _); [by right|by left].
Qed.

Lemma handle_incoming_iteration_outbound (self : Mplex.t) :
  outbound (snd (handle_incoming_iteration self)) = outbound self.
Proof.
  unfold handle_incoming_iteration.
  destruct (read_message_cases self) as [(frame & buf & Hr)|(buf & Hr)];
    rewrite (bind_returns _ _ _ _ _ Hr); [|done].
  destruct frame as [[stream_id flag] message].
  by rewrite dispatch_outbound.
Qed.

Lemma handle_incoming_outbound (iterations : nat) (self : Mplex.t) :
  outbound (snd (handle_incoming iterations self)) = outbound self.
Proof.
  revert self. induction iterations as [|k IH]; intros self; [done|].
  cbn [handle_incoming]. unfold bind.
  pose proof (handle_incoming_iteration_outbound self) as Hstep.
  destruct (handle_incoming_iteration self) as [[[]|e|] self1];
    cbn [snd] in *; [|done..].
  by rewrite IH.
Qed.

(** X1. Per stream, the loop keeps the order of arrival and does not
    raise.  Either it went through the frames, and the queue of a stream
    is what it was, followed by the non-empty payloads for that stream of
    all the frames in their order; or it stays in [accept_stream] at a
    [NewStream] frame whose id had its queue while no id was waiting, and
    then the state is the one the frames before that frame left: the
    queue of a stream is what it was, followed by the non-empty payloads
    for that stream of the frames before that frame only. *)
Lemma dispatch_all_in_order (frames : list (N * N * list byte))
    (self : Mplex.t) (s : N) :
  (fst (dispatch_all frames self) = Ret tt
   ∧ queue_of s (snd (dispatch_all frames self))
     = queue_of s self ++ payloads_for s frames)
  ∨ (∃ (before : list (N * N * list byte)) (stream_id : N)
       (message : list byte) (after : list (N * N * list byte))
       (mid : Mplex.t),
       frames = before ++ (stream_id, NewStream, message) :: after
       ∧ dispatch_all before self = (Ret tt, mid)
       ∧ stream_id ∈ dom (buffers mid)
       ∧ stream_queue mid = []
       ∧ dispatch_all frames self = (Suspended, mid)
       ∧ queue_of s mid = queue_of s self ++ payloads_for s before).
Proof.
  revert self. induction frames as [|[[id flag] message] frames IH];
    intros self.
  - left. cbn. by rewrite app_nil_r.
  - cbn [dispatch_all].
    pose proof (dispatch_queue_of id flag message self s) as Hstep.
    destruct (dispatch id flag message self) as [[[]|e|] self1] eqn:Hd;
      cbn [fst snd] in Hstep; [|done|].
    + rewrite (bind_returns _ _ _ _ _ Hd).
      destruct (IH self1)
        as [[Hret Hqueue]
           |(before & sid & m & after & mid & Hframes & Hbefore & Hknown
             & Hnone & Hall & Hqueue)].
      * left. split; [done|].
        rewrite Hqueue, Hstep, (payloads_for_cons s _ frames).
        by rewrite <- app_assoc.
      * right. exists ((id, flag, message) :: before), sid, m, after, mid.
        split; [by rewrite Hframes|]. split.
        { cbn [dispatch_all]. by rewrite (bind_returns _ _ _ _ _ Hd). }
        split; [done|]. split; [done|]. split; [done|].
        rewrite Hqueue, Hstep, (payloads_for_cons s _ before).
        by rewrite <- app_assoc.
    + rewrite (bind_suspends _ _ _ _ Hd). right.
      rewrite dispatch_eq in Hd. case_decide as Hflag; [subst flag|done].
      destruct (stream_queue (register id self)) as [|next rest] eqn:Hsq;
        [|done].
      injection Hd as <-.
      assert (buffers self !! id ≠ None ∧ register id self = self) as [Hin Hreg].
      { unfold register in Hsq |- *.
        destruct (buffers self !! id); [done|].
        cbn in Hsq. by destruct (stream_queue self). }
      rewrite Hreg in *.
      exists [], id, message, frames, self.
      split; [done|]. split; [done|].
      split; [by apply elem_of_dom, not_eq_None_Some|].
      split; [done|]. split; [done|]. cbn. by rewrite app_nil_r.
Qed.

(** X4. A frame whose flag is not [NewStream] is always handled to the
    end: [dispatch] returns, the handler is not invoked, an unseen id is
    put on [stream_queue] (a seen one is not), and the queue of every
    stream is what it was, followed by the message when the message is
    non-empty and for that stream. *)
Theorem message_frame_always_handled (stream_id flag : N)
    (message : list byte) (self : Mplex.t) :
  flag ≠ NewStream →
  fst (dispatch stream_id flag message self) = Ret tt
  ∧ handler_tasks (snd (dispatch stream_id flag message self))
    = handler_tasks self
  ∧ stream_queue (snd (dispatch stream_id flag message self))
    = match buffers self !! stream_id with
      | Some _ => stream_queue self
      | None => stream_queue self ++ [stream_id]
      end
  ∧ ∀ s, queue_of s (snd (dispatch stream_id flag message self))
         = queue_of s self ++ payloads_for s [(stream_id, flag, message)].
Proof.
  intros Hflag.
  assert (fst (dispatch stream_id flag message self) = Ret tt) as Hret
    by (by rewrite dispatch_eq, decide_False).
  split; [done|]. split; [|split].
  - rewrite dispatch_eq, decide_False by done. cbn [snd].
    destruct (enqueue_outbound stream_id message (register stream_id self))
      as (_ & -> & _).
    apply register_outbound.
  - rewrite dispatch_eq, decide_False by done. cbn [snd].
    destruct (enqueue_outbound stream_id message (register stream_id self))
      as (_ & _ & -> & _).
    unfold register. by destruct (buffers self !! stream_id).
  - intros s. pose proof (dispatch_queue_of stream_id flag message self s) as H.
    by rewrite Hret in H.
Qed.

Lemma message_frame_always_handled_witness :
  2 ≠ NewStream
  ∧ fst (dispatch 5 2 [x68; x69] (fresh [])) = Ret tt
  ∧ handler_tasks (snd (dispatch 5 2 [x68; x69] (fresh []))) = []
  ∧ stream_queue (snd (dispatch 5 2 [x68; x69] (fresh []))) = [5]
  ∧ queue_of 5 (snd (dispatch 5 2 [x68; x69] (fresh []))) = [[x68; x69]].
Proof.
  assert (2 ≠ NewStream) as Hflag by discriminate.
  destruct (message_frame_always_handled 5 2 [x68; x69] (fresh []) Hflag)
    as (Hret & Htasks & Hqueue & Hall).
  split; [exact Hflag|]. split; [exact Hret|]. split; [exact Htasks|].
  split; [exact Hqueue|]. exact (Hall 5).
Defined.

(** X6. The loop does not raise: the timeout of [read_message] is
    caught, and [self.buffers[stream_id]] is there when the message is
    put, so no [KeyError].  Any number of turns returns or stays in
    [accept_stream]. *)
Theorem handle_incoming_never_raises (iterations : nat) (self : Mplex.t) :
  fst (handle_incoming iterations self) = Ret tt
  ∨ fst (handle_incoming iterations self) = Suspended.
Proof.
  revert self. induction iterations as [|k IH]; intros self; [by left|].
  cbn [handle_incoming]. unfold bind.
  destruct (handle_incoming_iteration_outcome self) as [Hstep|Hstep];
    destruct (handle_incoming_iteration self) as [[[]|e|] self1];
    cbn [fst] in Hstep; try discriminate Hstep.
  - apply IH.
  - by right.
Qed.

(** X7. An idle connection: while the reader holds no byte, any number
    of turns of the loop returns and leaves the whole state as it is. *)
Theorem handle_incoming_idle (iterations : nat) (self : Mplex.t) :
  conn_reader self = [] →
  handle_incoming iterations self = (Ret tt, self).
Proof.
  intros Hidle. induction iterations as [|k IH]; [done|].
  cbn [handle_incoming].
  assert (handle_incoming_iteration self = (Ret tt, self)) as Hstep.
  { destruct self as [r w c ids a b q h]. cbn in Hidle. by subst r. }
  by rewrite (bind_returns _ _ _ _ _ Hstep).
Qed.

Lemma handle_incoming_idle_witness :
  conn_reader (snd (open_stream (fresh []))) = []
  ∧ handle_incoming 3 (snd (open_stream (fresh [])))
    = (Ret tt, snd (open_stream (fresh []))).
Proof.
  split; [reflexivity|].
  apply (handle_incoming_idle 3 (snd (open_stream (fresh [])))). reflexivity.
Defined.

End LoopSteps.

(** ** Each remote stream is announced once *)

Section AnnouncedOnce.
Import Mplex.

(** A step that touches neither the handler's tasks nor [stream_queue]
    and drops no queue keeps the invariant. *)
Lemma accepts_once_frame (self self' : Mplex.t) :
  handler_tasks self' = handler_tasks self →
  stream_queue self' = stream_queue self →
  dom (buffers self) ⊆ dom (buffers self') →
  accepts_once self → accepts_once self'.
Proof.
  intros Htasks Hqueue Hdom (Hnodup & Hknown & Hrecv).
  unfold accepts_once, announced in *. rewrite Htasks, Hqueue.
  split; [done|]. split; [|done].
  intros id Hid. apply Hdom. by apply Hknown.
Qed.

Lemma accepts_once_register (stream_id : N) (self : Mplex.t) :
  accepts_once self → accepts_once (register stream_id self).
Proof.
  intros (Hnodup & Hknown & Hrecv). unfold register.
  destruct (buffers self !! stream_id) as [queue|] eqn:Hq; [done|].
  unfold accepts_once, announced in *. cbn.
  rewrite app_assoc. split; [|split; [|done]].
  - apply NoDup_app. split; [done|]. split; [|apply NoDup_singleton].
    intros id Hid ->%list_elem_of_singleton.
    apply Hknown, elem_of_dom in Hid. rewrite Hq in Hid. by destruct Hid.
  - intros id [Hid| ->%list_elem_of_singleton]%elem_of_app;
      rewrite dom_insert_L; [|set_solver].
    apply Hknown in Hid. set_solver.
Qed.

Lemma accepts_once_accepted (self : Mplex.t) :
  accepts_once self → accepts_once (accepted self).
Proof.
  intros (Hnodup & Hknown & Hrecv). unfold accepted.
  destruct (stream_queue self) as [|next rest] eqn:Hsq; [done|].
  unfold accepts_once, announced in *. cbn. rewrite Hsq in *.
  rewrite map_app, <- app_assoc. cbn.
  split; [done|]. split; [done|].
  apply Forall_app. split; [done|]. by apply Forall_singleton.
Qed.

Lemma accepts_once_enqueue (stream_id : N) (message : list byte)
    (self : Mplex.t) :
  accepts_once self → accepts_once (enqueue stream_id message self).
Proof.
  unfold enqueue. destruct message as [|b message]; [done|].
  apply accepts_once_frame; [done..|]. cbn. rewrite dom_insert_L. set_solver.
Qed.

Lemma dispatch_accepts_once (stream_id flag : N) (message : list byte) :
  preserves accepts_once (dispatch stream_id flag message).
Proof.
  intros self Hself. rewrite dispatch_eq.
  pose proof (accepts_once_register stream_id self Hself) as Hreg.
  case_decide; [destruct (stream_queue (register stream_id self)) eqn:Hsq|];
    cbn [snd]; [done| |].
  - by apply accepts_once_enqueue, accepts_once_accepted.
  - by apply accepts_once_enqueue.
Qed.

Lemma read_message_accepts_once : preserves accepts_once read_message.
Proof.
  intros self Hself.
  destruct (read_message_cases self) as [(frame & buf & ->)|(buf & ->)];
    by apply (accepts_once_frame self).
Qed.

Lemma handle_incoming_accepts_once (iterations : nat) :
  preserves accepts_once (handle_incoming iterations).
Proof.
  induction iterations as [|k IH]; [apply preserves_ret|].
  apply preserves_bind; [|done].
  apply preserves_bind; [apply read_message_accepts_once|].
  intros [[[stream_id flag] message]|];
    [apply dispatch_accepts_once|apply preserves_ret].
Qed.

Lemma after_accepts_once (c : call) (self : Mplex.t) :
  accepts_once self → accepts_once (after c self).
Proof.
  intros Hself.
  destruct c as [| |sid|sid| | |flag data sid|bs| |n|data]; cbn [after].
  - by apply (accepts_once_frame self).
  - done.
  - revert Hself. apply accepts_once_frame; [..|apply read_buffer_keeps];
      unfold read_buffer, bind, get;
      by destruct (buffers self !! sid) as [[|chunk rest]|].
  - revert Hself.
    apply accepts_once_frame; [..|apply read_buffer_nonblocking_keeps];
      unfold read_buffer_nonblocking, bind, get;
      by destruct (buffers self !! sid) as [[|chunk rest]|].
  - revert Hself. apply accepts_once_frame; [done..|apply open_stream_keeps].
  - rewrite accept_stream_eq.
    pose proof (accepts_once_accepted self Hself) as Hacc.
    by destruct (stream_queue self).
  - by apply (accepts_once_frame self).
  - by apply (accepts_once_frame self).
  - by apply read_message_accepts_once.
  - by apply handle_incoming_accepts_once.
  - by apply (accepts_once_frame self).
Qed.

(** X5. On a connection made by [__init__], after any calls whatever and
    any bytes received, no stream id was handed to the handler twice, no
    id both waits in [stream_queue] and was handed over, every such id
    has its queue in [buffers], and every handle the handler got has the
    receiving direction. *)
Theorem remote_streams_announced_once (ids : nat → N) (received : list byte)
    (cs : list call) :
  accepts_once (after_all cs (init ids received))
  ∧ NoDup (map stream_id (handler_tasks (after_all cs (init ids received)))).
Proof.
  assert (accepts_once (after_all cs (init ids received))) as Hinv.
  { assert (accepts_once (init ids received)) as Hinit.
    { split; [apply NoDup_nil_2|]. split; [|apply Forall_nil_2].
      intros id Hid. by apply elem_of_nil in Hid. }
    revert Hinit. generalize (init ids received).
    induction cs as [|c cs IH]; intros self Hself; [done|].
    cbn [after_all foldl]. by apply IH, after_accepts_once. }
  split; [done|].
  destruct Hinv as (Hnodup & _). unfold announced in Hnodup.
  by apply NoDup_app in Hnodup as (? & _).
Qed.

End AnnouncedOnce.

(** ** The outbound side: writer, close flag and id counter *)

Section Outbound.
Import Mplex.

(** What every call does to the outbound side: the id sequence stays, the
    counter does not go back, written bytes stay written, and a closed
    connection stays closed. *)
Lemma after_outbound (c : call) (self : Mplex.t) :
  conn_ids (after c self) = conn_ids self
  ∧ (conn_allocated self <= conn_allocated (after c self))%nat
  ∧ conn_writer self `prefix_of` conn_writer (after c self)
  ∧ (conn_closed self = true → conn_closed (after c self) = true).
Proof.
  assert (∀ self' : Mplex.t, outbound self' = outbound self →
            conn_ids self' = conn_ids self
            ∧ (conn_allocated self <= conn_allocated self')%nat
            ∧ conn_writer self `prefix_of` conn_writer self'
            ∧ (conn_closed self = true → conn_closed self' = true)) as Hsame.
  { intros self' Hout. unfold outbound in Hout.
    injection Hout as -> -> -> ->. done. }
  destruct c as [| |sid|sid| | |flag data sid|bs| |n|data]; cbn [after].
  - cbn. repeat split; try done; lia.
  - by apply Hsame.
  - apply Hsame. unfold read_buffer, bind, get.
    by destruct (buffers self !! sid) as [[|chunk rest]|].
  - apply Hsame. unfold read_buffer_nonblocking, bind, get.
    by destruct (buffers self !! sid) as [[|chunk rest]|].
  - cbn. repeat split; try done; try lia; by apply prefix_app_r.
  - apply Hsame. rewrite accept_stream_eq. unfold accepted.
    by destruct (stream_queue self).
  - cbn. repeat split; try done; try lia; by apply prefix_app_r.
  - cbn. repeat split; try done; try lia; by apply prefix_app_r.
  - apply Hsame.
    by destruct (read_message_cases self) as [(frame & buf & ->)|(buf & ->)].
  - apply Hsame, handle_incoming_outbound.
  - by apply Hsame.
Qed.

Lemma after_all_outbound (cs : list call) (self : Mplex.t) :
  conn_ids (after_all cs self) = conn_ids self
  ∧ (conn_allocated self <= conn_allocated (after_all cs self))%nat
  ∧ conn_writer self `prefix_of` conn_writer (after_all cs self)
  ∧ (conn_closed self = true → conn_closed (after_all cs self) = true).
Proof.
  revert self. induction cs as [|c cs IH]; intros self; [done|].
  change (after_all (c :: cs) self) with (after_all cs (after c self)).
  destruct (after_outbound c self) as (Hids & Hcount & Hwriter & Hclosed).
  destruct (IH (after c self)) as (Hids' & Hcount' & Hwriter' & Hclosed').
  split; [congruence|]. split; [lia|]. split; [by etrans|auto].
Qed.

(** X13. Bytes handed to the transport stay: after any calls, what was
    written before is a prefix of what is written now.  Only
    [open_stream], [send_message] and [write_to_stream] write; reading,
    accepting, closing and the loop leave the writer as it is. *)
Theorem writer_is_append_only (cs : list call) (self : Mplex.t) :
  conn_writer self `prefix_of` conn_writer (after_all cs self)
  ∧ ∀ c : call,
      match c with
      | OpenStream | SendMessage _ _ _ | WriteToStream _ => True
      | _ => conn_writer (after c self) = conn_writer self
      end.
Proof.
  split; [apply after_all_outbound|].
  intros [| |sid|sid| | |flag data sid|bs| |n|data]; cbn [after]; try done.
  - unfold read_buffer, bind, get.
    by destruct (buffers self !! sid) as [[|chunk rest]|].
  - unfold read_buffer_nonblocking, bind, get.
    by destruct (buffers self !! sid) as [[|chunk rest]|].
  - rewrite accept_stream_eq. unfold accepted. by destruct (stream_queue self).
  - by destruct (read_message_cases self) as [(frame & buf & ->)|(buf & ->)].
  - pose proof (handle_incoming_outbound n self) as Hout.
    unfold outbound in Hout. by injection Hout.
Qed.

(** What each call does to the id counter: [open_stream] advances it by
    one and every other call leaves it where it is. *)
Lemma after_allocated (c : call) (self : Mplex.t) :
  conn_allocated (after c self)
  = match c with
    | OpenStream => S (conn_allocated self)
    | _ => conn_allocated self
    end.
Proof.
  destruct c as [| |sid|sid| | |flag data sid|bs| |n|data]; cbn [after];
    try done.
  - unfold read_buffer, bind, get.
    by destruct (buffers self !! sid) as [[|chunk rest]|].
  - unfold read_buffer_nonblocking, bind, get.
    by destruct (buffers self !! sid) as [[|chunk rest]|].
  - rewrite accept_stream_eq. unfold accepted. by destruct (stream_queue self).
  - by destruct (read_message_cases self) as [(frame & buf & ->)|(buf & ->)].
  - pose proof (handle_incoming_outbound n self) as Hout.
    unfold outbound in Hout. by injection Hout.
Qed.

(** X14. Local ids are not reused: [open_stream] advances the id counter
    by one, no other call moves it, and no call changes the id sequence;
    so between two calls of [open_stream], whatever is called in
    between, the second asks for a later element of the sequence, and
    when the sequence does not repeat the two handles have different
    ids. *)
Theorem open_stream_ids_differ (self : Mplex.t) (cs : list call) :
  (∀ i j, conn_ids self i = conn_ids self j → i = j) →
  let later := after_all cs (snd (open_stream self)) in
  (∀ (c : call) (s : Mplex.t),
     conn_ids (after c s) = conn_ids s
     ∧ conn_allocated (after c s)
       = match c with
         | OpenStream => S (conn_allocated s)
         | _ => conn_allocated s
         end)
  ∧ (conn_allocated self < conn_allocated later)%nat
  ∧ fst (open_stream self)
    = Ret (mkStream (conn_ids self (conn_allocated self)) true)
  ∧ fst (open_stream later)
    = Ret (mkStream (conn_ids self (conn_allocated later)) true)
  ∧ conn_ids self (conn_allocated self) ≠ conn_ids self (conn_allocated later).
Proof.
  intros Hinj later.
  destruct (after_all_outbound cs (snd (open_stream self)))
    as (Hids & Hcount & _). fold later in Hids, Hcount.
  cbn in Hids, Hcount.
  split; [|split; [lia|]]; [|split; [done|]]; [|split].
  - intros c s. split; [apply after_outbound|apply after_allocated].
  - cbn. by rewrite Hids.
  - intros Heq%Hinj. lia.
Qed.

Lemma open_stream_ids_differ_witness :
  (∀ i j, conn_ids (fresh []) i = conn_ids (fresh []) j → i = j)
  ∧ fst (open_stream (fresh [])) = Ret (mkStream 0 true)
  ∧ fst (open_stream
           (after_all [ReadBuffer 0; HandleIncoming 2; OpenStream; Close]
              (snd (open_stream (fresh [])))))
    = Ret (mkStream 2 true).
Proof.
  assert (∀ i j, conn_ids (fresh []) i = conn_ids (fresh []) j → i = j) as Hinj.
  { intros i j Heq. cbn in Heq. lia. }
  split; [exact Hinj|].
  destruct (open_stream_ids_differ (fresh [])
              [ReadBuffer 0; HandleIncoming 2; OpenStream; Close] Hinj)
    as (_ & _ & Hfirst & Hsecond & _).
  split; [exact Hfirst|exact Hsecond].
Defined.

End Outbound.

(** ** Reading *)

Section Reading.
Import Mplex.

Lemma read_buffer_times_in_order_witness :
  buffers (snd (dispatch_all [(4, 2, [x61]); (6, 2, [x7a]); (4, 2, [x62])]
                  (fresh [])))
    !! 4 = Some ([[x61]; [x62]] ++ [])
  ∧ fst (read_buffer_times 2 4
           (snd (dispatch_all [(4, 2, [x61]); (6, 2, [x7a]); (4, 2, [x62])]
                   (fresh []))))
    = Ret [[x61]; [x62]].
Proof.
  split; [reflexivity|].
  apply (read_buffer_times_in_order [[x61]; [x62]] [] 4
           (snd (dispatch_all [(4, 2, [x61]); (6, 2, [x7a]); (4, 2, [x62])]
                   (fresh [])))).
  reflexivity.
Defined.

(** X12. [read_buffer_nonblocking] does not wait, and is [read_buffer]
    otherwise: where [read_buffer] returns a chunk it returns the same
    chunk and leaves the same state, where [read_buffer] waits on an
    empty queue it returns [None] and changes nothing, and where
    [read_buffer] raises it raises the same. *)
Theorem read_buffer_nonblocking_agrees (stream_id : N) (self : Mplex.t) :
  fst (read_buffer_nonblocking stream_id self) ≠ Suspended
  ∧ match read_buffer stream_id self with
    | (Ret chunk, self') =>
        read_buffer_nonblocking stream_id self = (Ret (Some chunk), self')
    | (Suspended, _) =>
        read_buffer_nonblocking stream_id self = (Ret None, self)
    | (Raise e, self') =>
        read_buffer_nonblocking stream_id self = (Raise e, self')
    end.
Proof.
  unfold read_buffer, read_buffer_nonblocking, bind, get.
  by destruct (buffers self !! stream_id) as [[|chunk rest]|].
Qed.

(** X11. [read_message] takes at most the declared number of payload
    bytes and does not wait for all of them: once the header and the
    length are read and some byte is there, the message is the first
    [length] bytes at hand, fewer when fewer have arrived, and what
    follows them stays in the reader. *)
Theorem read_message_takes_what_is_there (self : Mplex.t) (header length : N)
    (available : list byte) :
  conn_reader self
  = encode_uvarint header ++ encode_uvarint length ++ available →
  available ≠ [] →
  read_message self
  = (Ret (Some (N.shiftr header 3, N.land header 0x07,
                take (N.to_nat length) available)),
     set_conn_reader (drop (N.to_nat length) available) self).
Proof.
  intros Hreader Hsome.
  unfold read_message, try_except, bind, on_reader.
  rewrite Hreader, decode_encode_uvarint. cbn [conn_reader set_conn_reader].
  rewrite decode_encode_uvarint. cbn [conn_reader set_conn_reader].
  unfold wait_for_read. case_decide as Hlen.
  - subst length. by rewrite take_0, drop_0.
  - by destruct available.
Qed.

Lemma read_message_takes_what_is_there_witness :
  conn_reader (fresh [x28; x05; x68; x69])
  = encode_uvarint 40 ++ encode_uvarint 5 ++ [x68; x69]
  ∧ [x68; x69] ≠ []
  ∧ read_message (fresh [x28; x05; x68; x69])
    = (Ret (Some (N.shiftr 40 3, N.land 40 0x07, take (N.to_nat 5) [x68; x69])),
       set_conn_reader (drop (N.to_nat 5) [x68; x69])
         (fresh [x28; x05; x68; x69])).
Proof.
  split; [reflexivity|]. split; [discriminate|].
  apply (read_message_takes_what_is_there (fresh [x28; x05; x68; x69]) 40 5
           [x68; x69]); [reflexivity|discriminate].
Defined.

End Reading.

(** ** From one peer's writer to the other peer's queues *)

Section Wire.
Import Mplex.

Lemma set_conn_reader_twice (r r' : list byte) (self : Mplex.t) :
  set_conn_reader r (set_conn_reader r' self) = set_conn_reader r self.
Proof. reflexivity. Qed.

(** [dispatch] does not look at the reader. *)
Lemma dispatch_set_conn_reader (stream_id flag : N) (message r : list byte)
    (self : Mplex.t) :
  dispatch stream_id flag message (set_conn_reader r self)
  = (fst (dispatch stream_id flag message self),
     set_conn_reader r (snd (dispatch stream_id flag message self))).
Proof.
  assert (register stream_id (set_conn_reader r self)
          = set_conn_reader r (register stream_id self)) as Hreg.
  { unfold register. cbn [buffers set_conn_reader].
    by destruct (buffers self !! stream_id). }
  assert (∀ s, accepted (set_conn_reader r s) = set_conn_reader r (accepted s))
    as Hacc.
  { intros s. unfold accepted. cbn [stream_queue set_conn_reader].
    by destruct (stream_queue s). }
  assert (∀ s, enqueue stream_id message (set_conn_reader r s)
               = set_conn_reader r (enqueue stream_id message s)) as Henq.
  { intros s. unfold enqueue. by destruct message. }
  rewrite !dispatch_eq, Hreg. cbn [stream_queue set_conn_reader].
  case_decide; [destruct (stream_queue (register stream_id self))|];
    cbn [fst snd]; by rewrite ?Hacc, ?Henq.
Qed.

Lemma handle_incoming_once (self : Mplex.t) :
  handle_incoming 1 self = handle_incoming_iteration self.
Proof.
  cbn [handle_incoming]. unfold bind.
  by destruct (handle_incoming_iteration self) as [[[]|e|] self1].
Qed.

(** One turn of the loop on a reader that starts with a frame as
    [send_message] writes it. *)
Lemma handle_incoming_iteration_frame (stream_id flag : N) (message rest : list byte)
    (self : Mplex.t) :
  flag <= 7 →
  handle_incoming_iteration
    (set_conn_reader (frame_bytes flag (Some message) stream_id ++ rest) self)
  = (fst (dispatch stream_id flag message self),
     set_conn_reader rest (snd (dispatch stream_id flag message self))).
Proof.
  intros Hflag. unfold handle_incoming_iteration.
  rewrite (bind_returns _ _ _ _ _
             (read_message_frame_bytes stream_id flag (Some message) rest
                (set_conn_reader _ self) Hflag eq_refl)).
  cbn [default from_option id]. rewrite set_conn_reader_twice.
  apply dispatch_set_conn_reader.
Qed.

(** X8. The loop on the wire is the loop on the frames: when the reader
    holds the frames as [send_message] writes them, one after the other
    and followed by anything, as many turns of [handle_incoming] as there
    are frames end as [dispatch] on the frames in turn ends, with the
    same queues, the same [stream_queue] and the same handler tasks; when
    they return, the reader holds exactly what followed the frames. *)
Theorem loop_on_wire_is_loop_on_frames (frames : list (N * N * list byte))
    (rest : list byte) (self : Mplex.t) :
  Forall (λ frame, frame.1.2 <= 7) frames →
  let on_wire :=
    handle_incoming (length frames)
      (set_conn_reader (wire_of frames ++ rest) self) in
  let on_frames := dispatch_all frames self in
  fst on_wire = fst on_frames
  ∧ set_conn_reader [] (snd on_wire) = set_conn_reader [] (snd on_frames)
  ∧ (fst on_frames = Ret tt → conn_reader (snd on_wire) = rest).
Proof.
  intros Hflags. revert self.
  induction Hflags as [|[[stream_id flag] message] frames Hflag Hflags IH];
    intros self; [done|].
  cbn [fst snd] in Hflag. cbn zeta in *.
  cbn [length handle_incoming dispatch_all wire_of flat_map].
  change (flat_map _ frames) with (wire_of frames). rewrite <- app_assoc.
  pose proof (handle_incoming_iteration_frame stream_id flag message
                (wire_of frames ++ rest) self Hflag) as Hstep.
  destruct (dispatch stream_id flag message self) as [[[]|e|] self1] eqn:Hd;
    cbn [fst snd] in Hstep.
  - rewrite (bind_returns _ _ _ _ _ Hstep), (bind_returns _ _ _ _ _ Hd).
    apply IH.
  - by rewrite (bind_raises _ _ _ _ _ Hstep), (bind_raises _ _ _ _ _ Hd).
  - by rewrite (bind_suspends _ _ _ _ Hstep), (bind_suspends _ _ _ _ Hd).
Qed.

Lemma loop_on_wire_is_loop_on_frames_witness :
  Forall (λ frame : N * N * list byte, frame.1.2 <= 7)
    [(1, 1, [x61]); (2, 0, [])]
  ∧ fst (handle_incoming 2
           (set_conn_reader (wire_of [(1, 1, [x61]); (2, 0, [])] ++ [xff])
              (fresh [])))
    = fst (dispatch_all [(1, 1, [x61]); (2, 0, [])] (fresh [])).
Proof.
  assert (Forall (λ frame : N * N * list byte, frame.1.2 <= 7)
            [(1, 1, [x61]); (2, 0, [])]) as Hflags.
  { repeat constructor; discriminate. }
  split; [exact Hflags|].
  exact (proj1 (loop_on_wire_is_loop_on_frames
                  [(1, 1, [x61]); (2, 0, [])] [xff] (fresh []) Hflags)).
Defined.

End Wire.

Section PeerToPeer.
Import Mplex.

Lemma dispatch_new_stream_unseen_witness :
  buffers (fresh []) !! 3 = None
  ∧ stream_queue (fresh []) = []
  ∧ fst (dispatch 3 NewStream [x78] (fresh [])) = Ret tt
  ∧ handler_tasks (snd (dispatch 3 NewStream [x78] (fresh [])))
    = handler_tasks (fresh []) ++ [mkStream 3 false]
  ∧ stream_queue (snd (dispatch 3 NewStream [x78] (fresh []))) = [].
Proof.
  split; [reflexivity|]. split; [reflexivity|].
  apply (dispatch_new_stream_unseen 3 [x78] (fresh [])); reflexivity.
Defined.

Lemma frame_bytes_absent (flag stream_id : N) :
  frame_bytes flag None stream_id = frame_bytes flag (Some []) stream_id.
Proof. unfold frame_bytes. cbn [length]. by rewrite app_nil_r. Qed.

(** The bytes that arrive on an idle peer and one turn of its loop. *)
Lemma received_frame_dispatched (stream_id flag : N) (data : option (list byte))
    (peer : Mplex.t) :
  flag <= 7 →
  conn_reader peer = [] →
  handle_incoming 1 (snd (receive (frame_bytes flag data stream_id) peer))
  = (fst (dispatch stream_id flag (default [] data) peer),
     set_conn_reader [] (snd (dispatch stream_id flag (default [] data) peer))).
Proof.
  intros Hflag Hidle. unfold receive, modify. cbn [snd]. rewrite Hidle.
  cbn [app]. rewrite handle_incoming_once.
  assert (frame_bytes flag data stream_id
          = frame_bytes flag (Some (default [] data)) stream_id ++ []) as ->.
  { rewrite app_nil_r. destruct data; [done|apply frame_bytes_absent]. }
  by apply handle_incoming_iteration_frame.
Qed.

(** X9. A stream opened on one side is accepted on the other: when the
    bytes that [open_stream] writes arrive at an idle peer that has not
    seen the id and has no id waiting, one turn of the peer's loop
    returns, invokes the handler once, on a handle of that id with the
    receiving direction, makes the empty queue of that id, and leaves
    nothing in the reader and nothing in [stream_queue]. *)
Theorem open_stream_reaches_peer (self peer : Mplex.t) :
  conn_reader peer = [] →
  buffers peer !! conn_ids self (conn_allocated self) = None →
  stream_queue peer = [] →
  let id := conn_ids self (conn_allocated self) in
  let wire :=
    drop (length (conn_writer self)) (conn_writer (snd (open_stream self))) in
  let turn := handle_incoming 1 (snd (receive wire peer)) in
  fst turn = Ret tt
  ∧ handler_tasks (snd turn) = handler_tasks peer ++ [mkStream id false]
  ∧ buffers (snd turn) = <[id := []]> (buffers peer)
  ∧ stream_queue (snd turn) = []
  ∧ conn_reader (snd turn) = [].
Proof.
  intros Hidle Hunseen Hnone id wire turn. subst turn wire.
  cbn [open_stream snd]. fold id in Hunseen |- *.
  assert (drop (length (conn_writer self))
            (conn_writer (snd (open_stream self)))
          = frame_bytes NewStream None id) as Hwire.
  { cbn. by rewrite drop_app_length. }
  rewrite Hwire, (received_frame_dispatched id NewStream None peer)
    by (done || discriminate).
  rewrite dispatch_eq, decide_True by done.
  unfold register. rewrite Hunseen. cbn [stream_queue set_stream_queue].
  rewrite Hnone. cbn. done.
Qed.

Lemma open_stream_reaches_peer_witness :
  conn_reader (fresh []) = []
  ∧ buffers (fresh []) !! conn_ids (fresh []) (conn_allocated (fresh [])) = None
  ∧ stream_queue (fresh []) = []
  ∧ handler_tasks
      (snd (handle_incoming 1
              (snd (receive
                      (drop (length (conn_writer (fresh [])))
                         (conn_writer (snd (open_stream (fresh [])))))
                      (fresh [])))))
    = handler_tasks (fresh []) ++ [mkStream 0 false].
Proof.
  split; [reflexivity|]. split; [reflexivity|]. split; [reflexivity|].
  exact (proj1 (proj2 (open_stream_reaches_peer (fresh []) (fresh [])
                         eq_refl eq_refl eq_refl))).
Defined.

(** X10. A message sent on one side is read on the other: when the bytes
    that [send_message] writes for a flag other than [NewStream] arrive
    at an idle peer, one turn of the peer's loop returns without invoking
    the handler, the data, when not empty, is at the end of the queue of
    its stream and the other queues are as they were; when that queue
    was empty, [read_buffer] on the stream returns the data. *)
Theorem sent_message_reaches_peer (flag : N) (data : list byte) (stream_id : N)
    (self peer : Mplex.t) :
  flag <= 7 →
  flag ≠ NewStream →
  data ≠ [] →
  conn_reader peer = [] →
  let wire :=
    drop (length (conn_writer self))
      (conn_writer (snd (send_message flag (Some data) stream_id self))) in
  let turn := handle_incoming 1 (snd (receive wire peer)) in
  fst turn = Ret tt
  ∧ handler_tasks (snd turn) = handler_tasks peer
  ∧ conn_reader (snd turn) = []
  ∧ (∀ s, queue_of s (snd turn)
          = queue_of s peer ++ (if decide (s = stream_id) then [data] else []))
  ∧ (queue_of stream_id peer = [] →
     fst (read_buffer stream_id (snd turn)) = Ret data).
Proof.
  intros Hflag Hmessage Hdata Hidle wire turn. subst turn wire.
  assert (drop (length (conn_writer self))
            (conn_writer (snd (send_message flag (Some data) stream_id self)))
          = frame_bytes flag (Some data) stream_id) as Hwire.
  { rewrite send_message_eq. cbn [snd conn_writer set_conn_writer].
    by rewrite drop_app_length. }
  rewrite Hwire, (received_frame_dispatched stream_id flag (Some data) peer)
    by done.
  cbn [default from_option id fst snd].
  assert (fst (dispatch stream_id flag data peer) = Ret tt) as Hret
    by (by rewrite dispatch_eq, decide_False).
  assert (handler_tasks (snd (dispatch stream_id flag data peer))
          = handler_tasks peer) as Htasks.
  { rewrite dispatch_eq, decide_False by done. cbn [snd].
    destruct (enqueue_outbound stream_id data (register stream_id peer))
      as (_ & -> & _).
    apply register_outbound. }
  pose proof (λ s, dispatch_queue_of stream_id flag data peer s) as Hqueues.
  rewrite Hret in Hqueues.
  split; [done|]. split; [done|]. split; [done|]. split.
  - intros s. change (queue_of s (set_conn_reader [] ?x)) with (queue_of s x).
    rewrite Hqueues. unfold payloads_for. cbn [omap list_omap].
    destruct (decide (s = stream_id)) as [->|Hne].
    + by rewrite decide_True.
    + rewrite decide_False; [done|]. intros [? _]. by apply Hne.
  - intros Hempty. rewrite dispatch_eq, decide_False by done. cbn [snd].
    unfold enqueue. destruct data as [|b data]; [done|].
    unfold read_buffer, bind, get. cbn [buffers set_buffers set_conn_reader].
    rewrite lookup_insert_eq, register_queue_of, Hempty. done.
Qed.

Lemma sent_message_reaches_peer_witness :
  2 <= 7
  ∧ 2 ≠ NewStream
  ∧ [x68; x69] ≠ []
  ∧ conn_reader (fresh []) = []
  ∧ queue_of 4 (fresh []) = []
  ∧ fst (read_buffer 4
           (snd (handle_incoming 1
                   (snd (receive
                           (drop (length (conn_writer (fresh [])))
                              (conn_writer
                                 (snd (send_message 2 (Some [x68; x69]) 4
                                         (fresh [])))))
                           (fresh []))))))
    = Ret [x68; x69].
Proof.
  assert (2 <= 7) as Hflag by discriminate.
  assert (2 ≠ NewStream) as Hmessage by discriminate.
  assert ([x68; x69] ≠ []) as Hdata by discriminate.
  split; [exact Hflag|]. split; [exact Hmessage|]. split; [exact Hdata|].
  split; [reflexivity|]. split; [reflexivity|].
  exact (proj2 (proj2 (proj2 (proj2
           (sent_message_reaches_peer 2 [x68; x69] 4 (fresh []) (fresh [])
              Hflag Hmessage Hdata eq_refl)))) eq_refl).
Defined.

End PeerToPeer.

(** ** The raw connection: the lock and the other failures *)

Section RawConnectionLock.
Import RawConnection.
Context {T : Type} `{Transport T}.

(** X15. The drain lock is held around [drain] and nowhere else.  A
    [write] that found the lock free and returns or raises, whether
    [writer.write] or [drain] failed, leaves it free; while its [drain]
    is pending it holds the lock; a [write] that finds the lock held
    hands its data to the writer and waits at the lock without calling
    [drain].  [read] and [close] leave the lock as they find it, held
    or free. *)
Theorem drain_lock_held_around_drain (self : RawConnection.t T)
    (data : list byte) (n : Z) :
  (drain_lock self = false →
   fst (write data self) ≠ Suspended →
   drain_lock (snd (write data self)) = false)
  ∧ (drain_lock self = false →
     ∀ s s', writer_write data (stream self) = (Ret tt, s) →
             writer_drain s = (Suspended, s') →
             write data self
             = (Suspended, set_drain_lock true (set_stream s' self)))
  ∧ (drain_lock self = true →
     ∀ s, writer_write data (stream self) = (Ret tt, s) →
          write data self = (Suspended, set_stream s self))
  ∧ drain_lock (snd (read n self)) = drain_lock self
  ∧ drain_lock (snd (close self)) = drain_lock self.
Proof.
  destruct self as [s0 ini lock]. cbn [drain_lock stream].
  split; [|split; [|split; [|split]]].
  - intros -> Hdone. revert Hdone.
    unfold write, bind, try_except, on_stream, with_drain_lock, raise. cbn.
    destruct (writer_write data s0) as [[[]|e|] s1]; cbn; [| |done].
    + destruct (writer_drain s1) as [[[]|e|] s2]; cbn; [done| |done].
      by case_decide.
    + by case_decide.
  - intros -> s s' Hwrite Hdrain.
    unfold write, bind, try_except, on_stream, with_drain_lock. cbn.
    rewrite Hwrite. cbn. by rewrite Hdrain.
  - intros -> s Hwrite.
    unfold write, bind, try_except, on_stream, with_drain_lock. cbn.
    by rewrite Hwrite.
  - unfold read, try_except, on_stream, raise. cbn.
    destruct (reader_read n s0) as [[bytes_read|e|] s1]; cbn; [done| |done].
    by case_decide.
  - unfold close, bind, on_stream. cbn.
    destruct (writer_close s0) as [[[]|e|] s1]; cbn; [|done..].
    by destruct (writer_wait_closed s1) as [[[]|e|] s2].
Qed.

(** X16. Only the connection reset is renamed.  When [writer.write]
    raises, [write] raises at once, without draining and without taking
    the lock: [RawConnError] for a reset, the same exception for any
    other.  When [reader.read] raises, [read] does likewise. *)
Theorem failed_call_raises_at_once (self : RawConnection.t T)
    (data : list byte) (n : Z) (e : exn) :
  (∀ s, writer_write data (stream self) = (Raise e, s) →
        write data self
        = (Raise (if decide (e = ConnectionResetError) then RawConnError else e),
           set_stream s self))
  ∧ (∀ s, reader_read n (stream self) = (Raise e, s) →
          read n self
          = (Raise (if decide (e = ConnectionResetError) then RawConnError else e),
             set_stream s self)).
Proof.
  destruct self as [s0 ini lock]. split; intros s Hraise; cbn in Hraise.
  - unfold write, bind, try_except, on_stream, raise. cbn. rewrite Hraise.
    by case_decide.
  - unfold read, try_except, on_stream, raise. cbn. rewrite Hraise.
    by case_decide.
Qed.

(** X17. [close] renames nothing: whatever [writer.close] raises, a
    connection reset included, [close] raises as it is and does not wait
    for the closing; whatever [wait_closed] raises after a [close] that
    returned, [close] raises as it is. *)
Theorem close_raises_unchanged (self : RawConnection.t T) (e : exn) :
  (∀ s, writer_close (stream self) = (Raise e, s) →
        close self = (Raise e, set_stream s self))
  ∧ (∀ s s', writer_close (stream self) = (Ret tt, s) →
             writer_wait_closed s = (Raise e, s') →
             close self = (Raise e, set_stream s' self)).
Proof.
  destruct self as [s0 ini lock]. split.
  - intros s Hclose. cbn in Hclose.
    unfold close, bind, on_stream. cbn. by rewrite Hclose.
  - intros s s' Hclose Hwait. cbn in Hclose.
    unfold close, bind, on_stream. cbn. rewrite Hclose. cbn. by rewrite Hwait.
Qed.

End RawConnectionLock.

Section RawConnectionOnTransports.
Import RawConnection.

Lemma drain_lock_held_around_drain_witness :
  drain_lock
    (snd (write [x68; x69] (new (mk_pipe [] [] ResetOnDrain false) true)))
  = false
  ∧ write [x68; x69] (new (Congested []) true)
    = (Suspended, mk (Congested [x68; x69]) true true)
  ∧ write [x21] (mk (Congested [x68; x69]) true true)
    = (Suspended, mk (Congested [x68; x69; x21]) true true)
  ∧ drain_lock (snd (read 0 (mk (Congested [x68; x69]) true true))) = true.
Proof.
  split; [|split; [|split]].
  - apply (proj1 (drain_lock_held_around_drain
                    (new (mk_pipe [] [] ResetOnDrain false) true)
                    [x68; x69] 0)); [reflexivity|discriminate].
  - exact (proj1 (proj2 (drain_lock_held_around_drain
                           (new (Congested []) true) [x68; x69] 0))
             eq_refl _ _ eq_refl eq_refl).
  - exact (proj1 (proj2 (proj2 (drain_lock_held_around_drain
                                  (mk (Congested [x68; x69]) true true)
                                  [x21] 0)))
             eq_refl _ eq_refl).
  - exact (proj1 (proj2 (proj2 (proj2 (drain_lock_held_around_drain
                                         (mk (Congested [x68; x69]) true true)
                                         [x21] 0))))).
Defined.

Lemma failed_call_raises_at_once_witness :
  write [x68; x69] (new (Broken TimeoutError) true)
    = (Raise TimeoutError, new (Broken TimeoutError) true)
  ∧ read 4 (new (Broken ConnectionResetError) false)
    = (Raise RawConnError, new (Broken ConnectionResetError) false).
Proof.
  split.
  - exact (proj1 (failed_call_raises_at_once (new (Broken TimeoutError) true)
                    [x68; x69] 4 TimeoutError) _ eq_refl).
  - exact (proj2 (failed_call_raises_at_once
                    (new (Broken ConnectionResetError) false)
                    [x68; x69] 4 ConnectionResetError) _ eq_refl).
Defined.

Lemma close_raises_unchanged_witness :
  close (new (Broken ConnectionResetError) true)
  = (Raise ConnectionResetError, new (Broken ConnectionResetError) true).
Proof.
  exact (proj1 (close_raises_unchanged (new (Broken ConnectionResetError) true)
                  ConnectionResetError) _ eq_refl).
Defined.

End RawConnectionOnTransports.
